(** * CodeGuardian: the diff-to-comment pipeline, embedded and verified

    A shallow embedding of [src/diff_parser.py], [src/ai_reviewer.py] and
    [src/review.py].

    Conventions of the embedding:
    - a Python [str] is a [string]; its characters are the code points
      below 256, so that [\d] is exactly [0-9];
    - a Python [int] is a [Z] (unbounded);
    - a [dict] used as a map is a [gmap], a [set]/[frozenset] a [gset];
    - a [for] loop that mutates local variables is a [fold_left] of a step
      function over the loop state, [continue] being the branches that
      return the state unchanged;
    - calls to the model backend, [time.sleep] and the platform's posting
      calls are events of a trace threaded through a small state and
      exception monad;
    - lengths, indices and repetition counts, which are never negative, are
      [nat];
    - what the program writes with [print] and [logger] is not part of the
      model, and neither is [last_exception] of [_call_openai], which is
      written and never read. *)

From Stdlib Require Import ZArith Ascii DecimalString Lia.
From Stdlib Require String.
From stdpp Require Import base option list gmap strings.

Local Open Scope Z_scope.

(** ** Python strings *)

Module PyStr.

(** ["\n"], the separator of [str.split("\n")] *)
Definition LF : ascii := "010"%char.
Definition nl : string := String LF EmptyString.

(** [s.split("\n")]: never empty, [""] splits into [[""]] *)
Fixpoint split_newline (s : string) : list string :=
  match s with
  | EmptyString => [EmptyString]
  | String c rest =>
      if Ascii.eqb c LF then EmptyString :: split_newline rest
      else match split_newline rest with
           | [] => [String c EmptyString]
           | l :: ls => String c l :: ls
           end
  end.

(** ["\n".join(lines)] *)
Fixpoint join_newline (lines : list string) : string :=
  match lines with
  | [] => EmptyString
  | [l] => l
  | l :: ls => l +:+ nl +:+ join_newline ls
  end.

(** [c in s] for a single character *)
Fixpoint contains_char (c : ascii) (s : string) : bool :=
  match s with
  | EmptyString => false
  | String c' rest => Ascii.eqb c' c || contains_char c rest
  end.

(** [s.startswith(p)] *)
Definition startswith (p s : string) : bool := String.prefix p s.


(** the text without the character [c] *)
Fixpoint remove_char (c : ascii) (s : string) : string :=
  match s with
  | EmptyString => EmptyString
  | String c' rest =>
      if Ascii.eqb c' c then remove_char c rest
      else String c' (remove_char c rest)
  end.

(** the last character of [s], or [prev] when [s] is empty *)
Fixpoint last_char (prev : option ascii) (s : string) : option ascii :=
  match s with
  | EmptyString => prev
  | String c rest => last_char (Some c) rest
  end.

(** [s.endswith(suffix)] *)
Definition endswith (suffix s : string) : bool :=
  let n := String.length s in
  let m := String.length suffix in
  (m <=? n)%nat && String.eqb (String.substring (n - m) m s) suffix.

(** [s.rfind(ch)] for a single character: the highest index, or -1 *)
Fixpoint rfind (ch : ascii) (s : string) : Z :=
  match s with
  | EmptyString => -1
  | String c rest =>
      let r := rfind ch rest in
      if 0 <=? r then r + 1
      else if Ascii.eqb c ch then 0 else -1
  end.

(** [s[n:]] for [0 <= n] *)
Fixpoint drop (n : nat) (s : string) : string :=
  match n, s with
  | O, _ => s
  | S n', String _ rest => drop n' rest
  | S _, EmptyString => EmptyString
  end.

(** [s[:n]] for [0 <= n] *)
Fixpoint take (n : nat) (s : string) : string :=
  match n, s with
  | S n', String c rest => String c (take n' rest)
  | _, _ => EmptyString
  end.

(** [\d] on code points below 256 *)
Definition is_digit (c : ascii) : bool :=
  let n := nat_of_ascii c in (48 <=? n)%nat && (n <=? 57)%nat.

Definition digit_value (c : ascii) : Z := Z.of_nat (nat_of_ascii c) - 48.

(** [int(s)] for a string of decimal digits *)
Definition int_of_digits (s : string) : Z :=
  fold_left (fun acc c => 10 * acc + digit_value c) (String.list_ascii_of_string s) 0.

(** [str(n)] and the [{n}] of an f-string, for an [int] *)
Definition str_of_int (n : Z) : string := NilZero.string_of_int (Z.to_int n).

Definition all_digits (s : string) : bool :=
  forallb is_digit (String.list_ascii_of_string s).

(** [\s] and [str.isspace] on code points below 256 *)
Definition is_space (c : ascii) : bool :=
  let n := nat_of_ascii c in
  ((9 <=? n)%nat && (n <=? 13)%nat) || ((28 <=? n)%nat && (n <=? 32)%nat)
  || (n =? 133)%nat || (n =? 160)%nat.

(** the truth value of [s.strip()]: some character is no whitespace *)
Definition strip_nonempty (s : string) : bool :=
  existsb (fun c => negb (is_space c)) (String.list_ascii_of_string s).

Definition nonempty (s : string) : bool :=
  match s with EmptyString => false | _ => true end.

End PyStr.

(** ** Python regular expressions

    The patterns of the program are built from a few pieces, each of which
    the backtracking matcher of [re] can match in one way only; the pieces
    are written here as functions from the subject to what is left of it. *)

Module PyRe.
Import PyStr.

(** a literal prefix; the rest of the subject after it *)
Fixpoint literal (lit s : string) : option string :=
  match lit, s with
  | EmptyString, _ => Some s
  | String a lit', String b s' => if Ascii.eqb a b then literal lit' s' else None
  | String _ _, EmptyString => None
  end.

(** the longest run of digits and what follows it *)
Fixpoint span_digits (s : string) : string * string :=
  match s with
  | EmptyString => (EmptyString, EmptyString)
  | String c rest =>
      if is_digit c
      then let '(ds, r) := span_digits rest in (String c ds, r)
      else (EmptyString, s)
  end.

(** [(\d+)] *)
Definition digits1 (s : string) : option (string * string) :=
  match span_digits s with
  | (EmptyString, _) => None
  | (ds, r) => Some (ds, r)
  end.

(** [(?:,(\d+))?]: consumes [,<digits>] when it is there *)
Definition opt_count (s : string) : string :=
  match s with
  | String c rest =>
      if Ascii.eqb c ","%char
      then match digits1 rest with
           | Some (_, r) => r
           | None => s
           end
      else s
  | EmptyString => s
  end.

(** [[^x]*x]: up to the first [x]; the text before it and after it *)
Fixpoint span_until (x : ascii) (s : string) : option (string * string) :=
  match s with
  | EmptyString => None
  | String c rest =>
      if Ascii.eqb c x then Some (EmptyString, rest)
      else '(before, after) ← span_until x rest; Some (String c before, after)
  end.

(** [c{1,n}], greedy: how many [c] it takes, at most [n] *)
Fixpoint count_run (c : ascii) (n : nat) (s : string) : nat :=
  match n, s with
  | S n', String c' rest => if Ascii.eqb c' c then S (count_run c n' rest) else O
  | _, _ => O
  end.

(** [\s+], greedy: how many whitespace characters it takes *)
Fixpoint count_space (s : string) : nat :=
  match s with
  | String c rest => if is_space c then S (count_space rest) else O
  | EmptyString => O
  end.

(** [re.sub(pattern, repl, text)] for a pattern that matches no empty
    string. [match_at prev s] tries the pattern at the start of [s], [prev]
    being the character before it in the text ([None] at the start of the
    text); it gives the replacement and the length of the match. The scan
    goes left to right: [skip] characters still belong to the last match,
    a match emits its replacement, and a character where the pattern does
    not match is copied. *)
Fixpoint sub (match_at : option ascii → string → option (string * nat))
    (prev : option ascii) (skip : nat) (s : string) : string :=
  match s with
  | EmptyString => EmptyString
  | String c rest =>
      match skip with
      | S k => sub match_at (Some c) k rest
      | O =>
          match match_at prev s with
          | Some (repl, len) => repl +:+ sub match_at (Some c) (len - 1) rest
          | None => String c (sub match_at (Some c) O rest)
          end
      end
  end.

Definition re_sub (match_at : option ascii → string → option (string * nat))
    (text : string) : string :=
  sub match_at None O text.

End PyRe.

(** ** src/diff_parser.py *)

Module diff_parser.
Import PyStr PyRe.

(** *** [HUNK_HEADER_PATTERN]

    [^@@ -(\d+)(?:,(\d+))? \+(\d+)(?:,(\d+))? @@], applied with
    [Pattern.match], that is anchored at the start of the line only.
    Every [\d+] is followed by a character that is no digit, so the greedy
    run of digits is the only way to match and the pattern is matched by
    one left-to-right pass. *)

(** [HUNK_HEADER_PATTERN.match(raw_line)]: on a match, [group(3)] *)
Definition HUNK_HEADER_PATTERN_match (raw_line : string) : option string :=
  r1 ← literal "@@ -" raw_line;
  '(_, r2) ← digits1 r1;
  r4 ← literal " +" (opt_count r2);
  '(g3, r5) ← digits1 r4;
  _ ← literal " @@" (opt_count r5);
  Some g3.

(** *** [DiffLine] *)

Record DiffLine := mkDiffLine {
  line_number : Z;
  content : string;
  is_addition : bool;
  is_deletion : bool;
  is_context : bool
}.

(** *** [parse_patch] *)

(** the loop state: [result] and [current_new_line] *)
Definition parse_state : Type := list DiffLine * Z.

(** one iteration of [for raw_line in patch.split("\n")] *)
Definition parse_step (st : parse_state) (raw_line : string) : parse_state :=
  let '(result, current_new_line) := st in
  if startswith "\" raw_line then st
  else
    match HUNK_HEADER_PATTERN_match raw_line with
    | Some g3 => (result, int_of_digits g3)
    | None =>
        match raw_line with
        | EmptyString => st
        | String prefix content =>
            if Ascii.eqb prefix "+"%char then
              (result ++ [mkDiffLine current_new_line content true false false],
               current_new_line + 1)
            else if Ascii.eqb prefix "-"%char then st
            else if Ascii.eqb prefix " "%char then
              (result ++ [mkDiffLine current_new_line content false false true],
               current_new_line + 1)
            else st
        end
    end.

Definition parse_patch (patch : string) : list DiffLine :=
  match patch with
  | EmptyString => []
  | _ => fst (fold_left parse_step (split_newline patch) ([], 0))
  end.

(** *** [filter_reviewable_files] *)

Definition REVIEWABLE_EXTENSIONS : gset string :=
  {[ ".py"; ".js"; ".ts"; ".html" ]}.

(** a file dict with the keys [filename], [patch], [additions] and
    [deletions]; [patch] is [None] for a binary file *)
Record ChangedFile := mkChangedFile {
  filename : string;
  patch : option string;
  additions : Z;
  deletions : Z
}.

(** one iteration of [for file in files] *)
Definition filter_step (result : list ChangedFile) (file : ChangedFile)
  : list ChangedFile :=
  match patch file with
  | None => result
  | Some _ =>
      if additions file =? 0 then result
      else
        let dot_index := rfind "."%char (filename file) in
        if dot_index =? -1 then result
        else
          let extension := drop (Z.to_nat dot_index) (filename file) in
          if bool_decide (extension ∈ REVIEWABLE_EXTENSIONS)
          then result ++ [file]
          else result
  end.

(** the tests of the loop body, as one boolean: [filter_step] appends the
    file exactly when it holds *)
Definition keeps (file : ChangedFile) : bool :=
  match patch file with
  | None => false
  | Some _ =>
      negb (additions file =? 0)
      && negb (rfind "."%char (filename file) =? -1)
      && bool_decide
           (drop (Z.to_nat (rfind "."%char (filename file))) (filename file)
            ∈ REVIEWABLE_EXTENSIONS)
  end.

Definition filter_reviewable_files (files : list ChangedFile) : list ChangedFile :=
  fold_left filter_step files [].

(** *** [get_valid_comment_lines] *)

Definition get_valid_comment_lines (patch : string) : gset Z :=
  list_to_set (line_number <$> parse_patch patch).

End diff_parser.


(** ** Effects: the model backend, the clock and the platform *)

Module Effects.

(** the exception classes the program tells apart; [SystemExit] is no
    [Exception] and is what [sys.exit] raises *)
Inductive exn_class :=
| AuthenticationError | BadRequestError | RateLimitError
| OtherException | SystemExit.

(** an exception: its class and [str(error)] *)
Record exn := mkExn { exn_cls : exn_class; exn_str : string }.

Definition is_Exception (e : exn) : bool :=
  match exn_cls e with SystemExit => false | _ => true end.

(** [response.choices[0]] of a completed model call *)
Record Choice := mkChoice {
  refusal : option string;
  finish_reason : string;
  message_content : option string
}.

(** a comment dict [{"path", "body", "line"}] handed to the platform *)
Record PlatformComment := mkPlatformComment {
  path : string; body : string; line : Z
}.

Inductive event :=
| ModelCall (system_prompt user_prompt : string)
| Sleep (seconds : Z)
| PostReviewComments (comments : list PlatformComment) (summary : string)
| PostErrorComment (error_message : string).

(** what has happened so far *)
Definition trace : Type := list event.

(** the number of model calls made so far *)
Definition is_ModelCall (ev : event) : bool :=
  match ev with ModelCall _ _ => true | _ => false end.
Definition calls_made (t : trace) : nat :=
  length (List.filter is_ModelCall t).

(** the waits of the sleeps, in order *)
Definition sleeps (t : trace) : list Z :=
  omap (λ ev, match ev with Sleep seconds => Some seconds | _ => None end) t.

(** the calls to the platform, in order *)
Definition platform_posts (t : trace) : list event :=
  List.filter
    (λ ev, match ev with
           | PostReviewComments _ _ | PostErrorComment _ => true
           | _ => false
           end) t.

(** a computation: from the trace so far to a value or a raised
    exception, and the trace extended *)
Definition M (A : Type) : Type := trace → (exn + A) * trace.

Definition ret {A} (a : A) : M A := λ t, (inr a, t).
Definition raise {A} (e : exn) : M A := λ t, (inl e, t).
Definition bind {A B} (m : M A) (k : A → M B) : M B :=
  λ t, match m t with
       | (inr a, t') => k a t'
       | (inl e, t') => (inl e, t')
       end.
(** [try: body / except: handler] *)
Definition try_except {A} (body : M A) (handler : exn → M A) : M A :=
  λ t, match body t with
       | (inr a, t') => (inr a, t')
       | (inl e, t') => handler e t'
       end.
Definition emit (ev : event) : M unit := λ t, (inr tt, t ++ [ev]).

(** a computation that only calls the model and sleeps: whatever it
    returns or raises, it adds no call to the platform to the trace *)
Definition model_only {A} (m : M A) : Prop :=
  ∀ t, ∃ new, (m t).2 = t ++ new ∧ platform_posts new = [].

(** run from the empty trace *)
Definition run {A} (m : M A) : (exn + A) * trace := m [].

End Effects.

Notation "x <- m ;; k" := (Effects.bind m (λ x, k))
  (at level 100, m at next level, right associativity, only parsing).
Notation "m ;;; k" := (Effects.bind m (λ _, k))
  (at level 100, right associativity, only parsing).

(** ** src/ai_reviewer.py *)

Module ai_reviewer.
Import PyStr PyRe Effects.

Definition MAX_INPUT_LENGTH : nat := 500.
Definition MAX_RETRIES : nat := 3.

(** [Literal["error", "warning", "info"]] *)
Inductive Severity := error | warning | info.
(** [Literal["bug", "security", "performance", "readability"]] *)
Inductive Category := bug | security | performance | readability.

#[global] Instance Severity_eq_dec : EqDecision Severity.
Proof. solve_decision. Defined.

Definition Severity_str (s : Severity) : string :=
  match s with error => "error" | warning => "warning" | info => "info" end.
Definition Category_str (c : Category) : string :=
  match c with
  | bug => "bug" | security => "security"
  | performance => "performance" | readability => "readability"
  end.

Record ReviewComment := mkReviewComment {
  file_path : string;
  line_number : Z;
  severity : Severity;
  category : Category;
  comment : string
}.

Record ReviewResponse := mkReviewResponse {
  comments : list ReviewComment;
  summary : string
}.

(** *** [_sanitize_input] *)

(** a markdown link: the pattern [\[ ( [^\]]* ) \] \( [^)]* \)] (its pieces
    set apart by spaces here), replaced by [\1].  After the opening
    bracket the label runs to the first closing bracket and the target to
    the first closing parenthesis. *)
Definition match_link (s : string) : option (string * nat) :=
  r1 ← literal "[" s;
  '(label, r2) ← span_until "]"%char r1;
  r3 ← literal "(" r2;
  '(url, _) ← span_until ")"%char r3;
  Some (label, (String.length label + String.length url + 4)%nat).

(** a markdown image: the link pattern after a [!], replaced by [\1] *)
Definition match_image (s : string) : option (string * nat) :=
  r ← literal "!" s;
  '(label, n) ← match_link r;
  Some (label, S n).

(** [(.*?)] before a [*]: the shortest text, without a newline, that a
    [*] follows; the text and the rest from that [*] on *)
Fixpoint span_lazy_star (s : string) : option (string * string) :=
  match s with
  | EmptyString => None
  | String c rest =>
      if Ascii.eqb c "*"%char then Some (EmptyString, s)
      else if Ascii.eqb c LF then None
      else '(g, r) ← span_lazy_star rest; Some (String c g, r)
  end.

(** [\*{1,3}(.*?)\*{1,3}] with the opening run taking [k] stars *)
Definition emphasis_try (k : nat) (s : string) : option (string * nat) :=
  '(g, r) ← span_lazy_star (drop k s);
  Some (g, (k + String.length g + count_run "*"%char 3 r)%nat).

(** the opening run is greedy: [k] stars first, then fewer *)
Fixpoint emphasis_from (k : nat) (s : string) : option (string * nat) :=
  match k with
  | O => None
  | S k' =>
      match emphasis_try k s with
      | Some m => Some m
      | None => emphasis_from k' s
      end
  end.

(** [\*{1,3}(.*?)\*{1,3}], replaced by [\1] *)
Definition match_emphasis (s : string) : option (string * nat) :=
  emphasis_from (count_run "*"%char 3 s) s.

(** [^#{1,6}\s+] with [re.MULTILINE], replaced by the empty string *)
Definition match_heading (prev : option ascii) (s : string)
  : option (string * nat) :=
  let at_line_start :=
    match prev with None => true | Some c => Ascii.eqb c LF end in
  let hashes := count_run "#"%char 6 s in
  let spaces := count_space (drop hashes s) in
  if at_line_start && (1 <=? hashes)%nat && (1 <=? spaces)%nat
  then Some (EmptyString, (hashes + spaces)%nat)
  else None.

(** [`{1,3}], replaced by the empty string *)
Definition match_backticks (s : string) : option (string * nat) :=
  let n := count_run "`"%char 3 s in
  if (1 <=? n)%nat then Some (EmptyString, n) else None.

(** the five [re.sub] calls of [_sanitize_input] *)
Definition strip_images : string → string := re_sub (λ _, match_image).
Definition strip_emphasis : string → string := re_sub (λ _, match_emphasis).
Definition strip_links : string → string := re_sub (λ _, match_link).
Definition strip_headings : string → string := re_sub match_heading.
Definition strip_backticks : string → string := re_sub (λ _, match_backticks).

Definition _sanitize_input (text : string) : string :=
  if negb (nonempty text) then ""
  else
    let sanitized := strip_images text in
    let sanitized := strip_emphasis sanitized in
    let sanitized := strip_links sanitized in
    let sanitized := strip_headings sanitized in
    let sanitized := strip_backticks sanitized in
    if (MAX_INPUT_LENGTH <? String.length sanitized)%nat
    then take MAX_INPUT_LENGTH sanitized
    else sanitized.

(** *** [AIReviewer] *)

Record AIReviewer := mkAIReviewer {
  _api_key : string;
  _project_context : string;
  _is_mock : bool
}.

(** [AIReviewer.__init__] *)
Definition AIReviewer_init (api_key project_context : string) : AIReviewer :=
  mkAIReviewer api_key project_context
    (String.eqb api_key "mock" || negb (nonempty api_key)).

Definition _build_system_prompt (self : AIReviewer) : string :=
  if nonempty (_project_context self) then
    "You are a senior code reviewer. The following describes the project you are reviewing:"
    +:+ nl +:+ nl
    +:+ _project_context self +:+ nl +:+ nl
    +:+ "Based on this project context, review the provided code diff and return structured JSON feedback. "
    +:+ "For each issue found, provide the file path, line number, severity (error/warning/info), "
    +:+ "category (bug/security/performance/readability), and a clear explanation of the issue and suggested fix."
  else
    "You are a senior code reviewer. Review the provided code diff and return structured JSON feedback."
    +:+ nl +:+ nl
    +:+ "Focus on:" +:+ nl
    +:+ "1. Logic errors and potential bugs" +:+ nl
    +:+ "2. Security vulnerabilities" +:+ nl
    +:+ "3. Performance issues" +:+ nl
    +:+ "4. Code readability and maintainability" +:+ nl +:+ nl
    +:+ "For each issue found, provide the file path, line number, severity (error/warning/info), "
    +:+ "category (bug/security/performance/readability), and a clear explanation of the issue and suggested fix.".

Definition _build_user_prompt
    (file_path patch pr_title pr_description : string) : string :=
  let sanitized_title := _sanitize_input pr_title in
  let sanitized_description := _sanitize_input pr_description in
  let sanitized_patch := _sanitize_input patch in
  "Review the following code diff:" +:+ nl +:+ nl
  +:+ "File: " +:+ file_path +:+ nl
  +:+ "PR Title: " +:+ sanitized_title +:+ nl
  +:+ "PR Description: " +:+ sanitized_description +:+ nl +:+ nl
  +:+ "Diff:" +:+ nl +:+ "```" +:+ nl +:+ sanitized_patch +:+ nl +:+ "```"
  +:+ nl +:+ nl
  +:+ "Provide your review as structured JSON.".

(** *** The model backend

    [create n system_prompt user_prompt] is what the [n]-th call (from 0)
    of [self._client.chat.completions.create] does: it raises or returns
    the first choice of a response.  [decode] is
    [ReviewResponse.model_validate(json.loads(raw_content))], which raises
    on a payload that is no JSON or does not fit the schema. *)
Record Backend := mkBackend {
  create : nat → string → string → exn + Choice;
  decode : string → exn + ReviewResponse
}.

Section WithBackend.
Variable backend : Backend.

Definition chat_completions_create (system_prompt user_prompt : string)
  : M Choice :=
  λ t, (create backend (calls_made t) system_prompt user_prompt,
        t ++ [ModelCall system_prompt user_prompt]).

Definition lift {A} (r : exn + A) : M A := λ t, (r, t).

(** [time.sleep(wait_time)] *)
Definition time_sleep (wait_time : Z) : M unit := emit (Sleep wait_time).

(** the body of [for attempt in range(MAX_RETRIES)]: [Some response] when
    the function returns in this iteration, [None] when the loop goes on *)
Definition attempt_body (system_prompt user_prompt : string) (attempt : nat)
  : M (option ReviewResponse) :=
  try_except
    (choice <- chat_completions_create system_prompt user_prompt ;;
     if nonempty (default "" (refusal choice)) then
       ret (Some (mkReviewResponse [] ""))
     else if String.eqb (finish_reason choice) "length" then
       ret (Some (mkReviewResponse []
                    "Error: Response truncated due to token limit."))
     else
       let raw_content :=
         match message_content choice with
         | Some c => if nonempty c then c else ""
         | None => ""
         end in
       parsed <- lift (decode backend raw_content) ;;
       ret (Some parsed))
    (λ error,
       match exn_cls error with
       | AuthenticationError => raise error
       | BadRequestError =>
           ret (Some (mkReviewResponse []
                        "Error: Content was filtered by the API."))
       | RateLimitError =>
           if (attempt <? MAX_RETRIES - 1)%nat then
             let wait_time := 2 ^ (Z.of_nat attempt + 1) in
             time_sleep wait_time ;;; ret None
           else ret None
       | _ => raise error
       end).

(** the loop over the attempts and the code after it *)
Fixpoint attempts_loop (system_prompt user_prompt : string)
    (attempts : list nat) : M ReviewResponse :=
  match attempts with
  | [] =>
      ret (mkReviewResponse []
             ("Error: Rate limit exceeded after "
              +:+ str_of_int (Z.of_nat MAX_RETRIES) +:+ " retries."))
  | attempt :: rest =>
      r <- attempt_body system_prompt user_prompt attempt ;;
      match r with
      | Some response => ret response
      | None => attempts_loop system_prompt user_prompt rest
      end
  end.

Definition _call_openai (system_prompt user_prompt : string)
  : M ReviewResponse :=
  attempts_loop system_prompt user_prompt (seq 0 MAX_RETRIES).

Definition _mock_response (file_path : string) : ReviewResponse :=
  mkReviewResponse
    [mkReviewComment file_path 1 info readability
       "Mock review comment for testing."]
    "Mock review completed.".

Definition review_diff (self : AIReviewer)
    (file_path patch pr_title pr_description : string) : M ReviewResponse :=
  if _is_mock self then ret (_mock_response file_path)
  else
    let system_prompt := _build_system_prompt self in
    let user_prompt :=
      _build_user_prompt file_path patch pr_title pr_description in
    _call_openai system_prompt user_prompt.

(** [for file_info in files], over [all_comments]; a file is the pair of
    its ["file_path"] and its ["patch"] *)
Fixpoint review_files_loop (self : AIReviewer) (files : list (string * string))
    (pr_title pr_description : string) (all_comments : list ReviewComment)
  : M (list ReviewComment) :=
  match files with
  | [] => ret all_comments
  | (file_path, patch) :: rest =>
      response <- review_diff self file_path patch pr_title pr_description ;;
      review_files_loop self rest pr_title pr_description
        (all_comments ++ comments response)
  end.

Definition review_files (self : AIReviewer) (files : list (string * string))
    (pr_title pr_description : string) : M (list ReviewComment) :=
  review_files_loop self files pr_title pr_description [].

End WithBackend.

End ai_reviewer.

(** ** src/review.py *)

Module review.
Import PyStr Effects.
Import ai_reviewer.

(** one iteration of [for comment in comments], over [valid_comments] *)
Definition validate_step (file_patches : gmap string string)
    (valid_comments : list ReviewComment) (comment : ReviewComment)
  : list ReviewComment :=
  match file_patches !! file_path comment with
  | None => valid_comments
  | Some patch =>
      let valid_lines := diff_parser.get_valid_comment_lines patch in
      if bool_decide (line_number comment ∈ valid_lines)
      then valid_comments ++ [comment]
      else valid_comments
  end.

Definition validate_comment_lines (comments : list ReviewComment)
    (file_patches : gmap string string) : list ReviewComment :=
  fold_left (validate_step file_patches) comments [].

Definition format_comment_body (comment : ReviewComment) : string :=
  "**[" +:+ Severity_str (severity comment) +:+ "] ["
  +:+ Category_str (category comment) +:+ "]**: " +:+ ai_reviewer.comment comment.

(** [sum(1 for c in comments if c.severity == name)] *)
Definition count_severity (name : string) (comments : list ReviewComment) : Z :=
  fold_left
    (λ acc c, if String.eqb (Severity_str (severity c)) name then acc + 1 else acc)
    comments 0.

Definition build_summary (comments : list ReviewComment) : string :=
  let error_count := count_severity "error" comments in
  let warning_count := count_severity "warning" comments in
  let info_count := count_severity "info" comments in
  let total := Z.of_nat (length comments) in
  "CodeGuardian Review: Found " +:+ str_of_int total +:+ " issues "
  +:+ "(" +:+ str_of_int error_count +:+ " errors, "
  +:+ str_of_int warning_count +:+ " warnings, "
  +:+ str_of_int info_count +:+ " info)".

(** *** The platform

    What the platform client answers in one run.  Every call of the client
    can raise: a reading call gives a value or the exception it raises, and a
    posting call, an event of the trace, raises or not depending on what
    has happened before it. *)
Record PlatformContext := mkPlatformContext {
  number : Z;
  title : string;
  description : string;
  head_sha : string;
  repo_identifier : string
}.

Record Platform := mkPlatform {
  get_context : exn + PlatformContext;
  get_file_content : string → exn + option string;
  is_fork : exn + bool;
  get_files : exn + list diff_parser.ChangedFile;
  post_review_comments_raises :
    trace → list PlatformComment → string → option exn;
  post_error_comment_raises : trace → string → option exn
}.

(** what a posting call gives *)
Definition posted (raised : option exn) : exn + unit :=
  match raised with Some e => inl e | None => inr tt end.

Definition post_review_comments (platform : Platform)
    (comments : list PlatformComment) (summary : string) : M unit :=
  λ t, (posted (post_review_comments_raises platform t comments summary),
        t ++ [PostReviewComments comments summary]).

Definition post_error_comment (platform : Platform) (error_message : string)
  : M unit :=
  λ t, (posted (post_error_comment_raises platform t error_message),
        t ++ [PostErrorComment error_message]).

(** [sys.exit(code)] *)
Definition sys_exit {A} (code : Z) : M A :=
  raise (mkExn SystemExit (str_of_int code)).

Definition _fetch_project_context (platform : Platform) : M string :=
  content <- lift (get_file_content platform "AGENTS.md") ;;
  match content with
  | Some content =>
      if nonempty content && strip_nonempty content then ret content
      else ret ""
  | None => ret ""
  end.

(** [f["patch"]] of a file that passed the filter, which keeps no file
    without a patch *)
Definition patch_text (f : diff_parser.ChangedFile) : string :=
  default "" (diff_parser.patch f).

(** the list comprehension over [raw_files] *)
Definition file_dicts_of (raw_files : list diff_parser.ChangedFile)
  : list diff_parser.ChangedFile :=
  map (λ f, diff_parser.mkChangedFile
              (diff_parser.filename f) (diff_parser.patch f)
              (diff_parser.additions f) (diff_parser.deletions f))
      raw_files.

(** the body of the [try] block of [main] *)
Definition review_phase (backend : Backend) (platform : Platform)
    (reviewer : AIReviewer) (context : PlatformContext)
    (reviewable : list diff_parser.ChangedFile)
  : M unit :=
  let review_files_arg :=
    map (λ f, (diff_parser.filename f, patch_text f)) reviewable in
  ai_comments <- review_files backend reviewer review_files_arg
                   (title context) (description context) ;;
  let file_patches : gmap string string :=
    fold_left (λ m f, <[diff_parser.filename f := patch_text f]> m)
              reviewable ∅ in
  let valid_comments := validate_comment_lines ai_comments file_patches in
  let platform_comments :=
    map (λ comment,
           mkPlatformComment (file_path comment)
             (format_comment_body comment) (line_number comment))
        valid_comments in
  let summary := build_summary valid_comments in
  post_review_comments platform platform_comments summary.

(** the [except Exception as error] clause of [main] *)
Definition review_handler (platform : Platform) (error : exn) : M unit :=
  if is_Exception error then
    post_error_comment platform
      ("CodeGuardian encountered an error: " +:+ exn_str error)
  else raise error.

(** [main] from the platform client on; [OPENAI_API_KEY] is
    [os.environ.get("OPENAI_API_KEY", "")] *)
Definition main (backend : Backend) (platform : Platform)
    (OPENAI_API_KEY : string) : M unit :=
  context <- lift (get_context platform) ;;
  project_context <- _fetch_project_context platform ;;
  fork <- lift (is_fork platform) ;;
  if fork : bool then sys_exit 0
  else
    raw_files <- lift (get_files platform) ;;
    let file_dicts := file_dicts_of raw_files in
    let reviewable := diff_parser.filter_reviewable_files file_dicts in
    match reviewable with
    | [] =>
        post_error_comment platform
          "No reviewable files found in this PR/MR." ;;;
        sys_exit 0
    | _ =>
        let api_key := OPENAI_API_KEY in
        let reviewer := AIReviewer_init api_key project_context in
        try_except (review_phase backend platform reviewer context reviewable)
                   (review_handler platform)
    end.

End review.

(** ** Vocabulary of the specification *)

Module Spec.
Import PyStr PyRe.

(** the text has no line break *)
Definition one_line (s : string) : Prop := contains_char LF s = false.

(** a non-empty string of decimal digits *)
Definition number_text (s : string) : Prop :=
  nonempty s = true ∧ all_digits s = true.

(** the next character, if any, is no digit *)
Definition digit_free_start (s : string) : Prop :=
  match s with String c _ => is_digit c = false | EmptyString => True end.

(** [,<count>] when the count is there *)
Definition count_suffix (count : option string) : string :=
  match count with Some d => "," +:+ d | None => "" end.

Definition count_text (count : option string) : Prop :=
  match count with Some d => number_text d | None => True end.

(** the header [@@ -<oldStart>[,<oldCount>] +<newStart>[,<newCount>] @@]
    followed by any text *)
Definition hunk_header (old_start : string) (old_count : option string)
    (new_start : string) (new_count : option string) (trailing : string)
  : string :=
  "@@ -" +:+ old_start +:+ count_suffix old_count
  +:+ " +" +:+ new_start +:+ count_suffix new_count +:+ " @@" +:+ trailing.

(** [<newStart>] of a line that is a hunk header *)
Definition hunk_new_start (raw_line : string) : option Z :=
  int_of_digits <$> diff_parser.HUNK_HEADER_PATTERN_match raw_line.

(** an addition or a context line *)
Definition emits (raw_line : string) : bool :=
  match raw_line with
  | String c _ => Ascii.eqb c "+"%char || Ascii.eqb c " "%char
  | EmptyString => false
  end.

(** the first line of the patch is a hunk header *)
Definition starts_with_hunk_header (patch : string) : bool :=
  match split_newline patch with
  | first :: _ => bool_decide (is_Some (hunk_new_start first))
  | [] => false
  end.

(** every hunk header of the patch has a [<newStart>] of at least [m] *)
Definition headers_start_from (m : Z) (patch : string) : bool :=
  forallb (λ l, match hunk_new_start l with Some n => m <=? n | None => true end)
          (split_newline patch).

(** the comment is on a line of the diff: its file has a patch, and its
    line number is the new-file line number of a line of that patch *)
Definition comment_on_diff_line (file_patches : gmap string string)
    (c : ai_reviewer.ReviewComment) : Prop :=
  ∃ patch,
    file_patches !! ai_reviewer.file_path c = Some patch
    ∧ ai_reviewer.line_number c
      ∈ (diff_parser.line_number <$> diff_parser.parse_patch patch).

#[global] Instance comment_on_diff_line_dec file_patches c :
  Decision (comment_on_diff_line file_patches c).
Proof.
  unfold comment_on_diff_line.
  destruct (file_patches !! ai_reviewer.file_path c) as [patch|].
  - destruct (decide (ai_reviewer.line_number c
                      ∈ (diff_parser.line_number <$> diff_parser.parse_patch patch)))
      as [Hin|Hout].
    + left. by exists patch.
    + right. intros (p & Hp & Hin). by injection Hp as <-.
  - right. by intros (p & Hp & _).
Defined.

(** [e] is the extension of the path: its last [.] and what follows *)
Definition extension_of (filename e : string) : Prop :=
  ∃ stem tail,
    filename = stem +:+ String "." tail
    ∧ contains_char "." tail = false ∧ e = String "." tail.

(** the text with its capital letters A to Z made small *)
Definition lower_char (c : ascii) : ascii :=
  let n := Ascii.nat_of_ascii c in
  if (65 <=? n)%nat && (n <=? 90)%nat then Ascii.ascii_of_nat (n + 32) else c.
Fixpoint lower (s : string) : string :=
  match s with
  | EmptyString => EmptyString
  | String c rest => String (lower_char c) (lower rest)
  end.

(** the two texts differ, and only by the case of their letters *)
Definition differs_by_case (s1 s2 : string) : Prop :=
  s1 ≠ s2 ∧ lower s1 = lower s2.

(** the reasons to leave a file out: no patch (a binary file), no
    addition, a path without extension, an extension outside the allow-list *)
Definition excluded (f : diff_parser.ChangedFile) : Prop :=
  diff_parser.patch f = None
  ∨ diff_parser.additions f = 0
  ∨ contains_char "." (diff_parser.filename f) = false
  ∨ ∃ e, extension_of (diff_parser.filename f) e
         ∧ e ∉ diff_parser.REVIEWABLE_EXTENSIONS.

(** how many comments have the severity *)
Definition count_with_severity (s : ai_reviewer.Severity)
    (comments : list ai_reviewer.ReviewComment) : Z :=
  Z.of_nat (length (filter (λ c, ai_reviewer.severity c = s) comments)).

(** two errors and a warning *)
Definition two_errors_one_warning : list ai_reviewer.ReviewComment :=
  [ai_reviewer.mkReviewComment "a.py" 1 ai_reviewer.error ai_reviewer.bug "err1";
   ai_reviewer.mkReviewComment "a.py" 2 ai_reviewer.error ai_reviewer.bug "err2";
   ai_reviewer.mkReviewComment "b.py" 3 ai_reviewer.warning
     ai_reviewer.readability "warn1"].

(** a backend that rejects the credential on every call *)
Definition auth_failing_backend : ai_reviewer.Backend :=
  ai_reviewer.mkBackend
    (λ _ _ _, inl (Effects.mkExn Effects.AuthenticationError "Invalid API key"))
    (λ _, inl (Effects.mkExn Effects.OtherException "Expecting value")).

(** a backend that is rate limited on every call *)
Definition rate_limited_backend : ai_reviewer.Backend :=
  ai_reviewer.mkBackend
    (λ _ _ _, inl (Effects.mkExn Effects.RateLimitError "Rate limit exceeded"))
    (λ _, inl (Effects.mkExn Effects.OtherException "Expecting value")).

(** the text stripped by the five substitutions of [_sanitize_input], in
    its order *)
Definition strip_markdown (text : string) : string :=
  ai_reviewer.strip_backticks
    (ai_reviewer.strip_headings
       (ai_reviewer.strip_links
          (ai_reviewer.strip_emphasis (ai_reviewer.strip_images text)))).

(** the pattern can only match where the text has the character [trig] *)
Definition triggered_by (trig : ascii)
    (match_at : option ascii → string → option (string * nat)) : Prop :=
  ∀ prev c r, c ≠ trig → match_at prev (String c r) = None.

(** a text without the characters of the markdown syntax *)
Definition markdown_free (s : string) : bool :=
  forallb (λ c, negb (contains_char c s))
          ["!"; "["; "]"; "*"; "#"; "`"]%char.

(** the text starts a line when it follows [before] *)
Definition at_line_start (before : string) : bool :=
  match last_char None before with
  | None => true
  | Some c => Ascii.eqb c LF
  end.



(** the patch of the tests of the validator, with the new-file lines 1 to 5 *)
Definition SAMPLE_PATCH : string :=
  join_newline ["@@ -1,3 +1,5 @@"; " line1"; "+added_line2"; "+added_line3";
                " line4"; " line5"].

(** a pull request that changes [src/app.py], on the same repository, on
    a platform that accepts every call *)
Definition sample_platform : review.Platform :=
  review.mkPlatform
    (inr (review.mkPlatformContext 1 "Test" "Test" "test123" "owner/repo"))
    (λ _, inr None) (inr false)
    (inr [diff_parser.mkChangedFile "src/app.py" (Some SAMPLE_PATCH) 2 0])
    (λ _ _ _, None) (λ _ _, None).

(** the same pull request on a platform that refuses every post *)
Definition refusing_platform : review.Platform :=
  review.mkPlatform
    (inr (review.mkPlatformContext 1 "Test" "Test" "test123" "owner/repo"))
    (λ _, inr None) (inr false)
    (inr [diff_parser.mkChangedFile "src/app.py" (Some SAMPLE_PATCH) 2 0])
    (λ _ _ _, Some (Effects.mkExn Effects.OtherException "403 Forbidden"))
    (λ _ _, Some (Effects.mkExn Effects.OtherException "403 Forbidden")).

(** the patch of the scenario of the specification *)
Definition single_hunk_patch : string :=
  join_newline ["@@ -10,4 +10,6 @@"; " context"; "+added1"; "+added2";
                " context"; " context"; "+added3"].

End Spec.

(** ** More vocabulary: the lines of a patch *)

Module PatchLines.
Import PyStr.

(** what a [DiffLine] says besides its number: content and the three flags *)
Definition DiffLine_payload (d : diff_parser.DiffLine)
  : string * bool * bool * bool :=
  (diff_parser.content d, diff_parser.is_addition d,
   diff_parser.is_deletion d, diff_parser.is_context d).

(** the same, read off an addition or context line of the patch *)
Definition line_payload (raw_line : string) : string * bool * bool * bool :=
  match raw_line with
  | String c content =>
      (content, Ascii.eqb c "+"%char, false, Ascii.eqb c " "%char)
  | EmptyString => (EmptyString, false, false, false)
  end.

(** the line is a hunk header *)
Definition is_header (raw_line : string) : bool :=
  bool_decide (is_Some (Spec.hunk_new_start raw_line)).

(** the lines that matter to [parse_patch]: hunk headers, additions and
    context lines; deletions, empty lines, the "no newline" marker and any
    other line do not *)
Definition significant (raw_line : string) : bool :=
  is_header raw_line || Spec.emits raw_line.

End PatchLines.

(** ** More vocabulary: a run of the orchestrator *)

Module Runs.
Import PyStr Effects.

(** the files that pass the filter, of the files the platform gave *)
Definition reviewable_files (raw_files : list diff_parser.ChangedFile)
  : list diff_parser.ChangedFile :=
  diff_parser.filter_reviewable_files (review.file_dicts_of raw_files).


(** what fetching the project context gives on the platform *)
Definition project_context (platform : review.Platform) : exn + string :=
  (review._fetch_project_context platform []).1.

(** the platform answers the reading calls of a run, and the pull request
    is no fork *)
Definition answers (platform : review.Platform)
    (context : review.PlatformContext) (project_text : string)
    (raw_files : list diff_parser.ChangedFile) : Prop :=
  review.get_context platform = inr context
  ∧ project_context platform = inr project_text
  ∧ review.is_fork platform = inr false
  ∧ review.get_files platform = inr raw_files.


(** what the posting call of the event raises after the trace *)
Definition post_raises (platform : review.Platform) (t : trace) (ev : event)
  : option exn :=
  match ev with
  | PostReviewComments comments summary =>
      review.post_review_comments_raises platform t comments summary
  | PostErrorComment error_message =>
      review.post_error_comment_raises platform t error_message
  | _ => None
  end.


(** the note of the [except] clause of [main] *)
Definition error_note (e : exn) : string :=
  "CodeGuardian encountered an error: " +:+ exn_str e.


(** the comment of the mock mode, as it is posted *)
Definition mock_platform_comment (c : PlatformComment) : Prop :=
  line c = 1
  ∧ body c = "**[info] [readability]**: Mock review comment for testing.".

(** the summary of [n] findings, all of severity info *)
Definition info_only_summary (n : nat) : string :=
  "CodeGuardian Review: Found " +:+ str_of_int (Z.of_nat n)
  +:+ " issues (0 errors, 0 warnings, " +:+ str_of_int (Z.of_nat n) +:+ " info)".

End Runs.

(** ** More vocabulary: the model call *)

Module Calls.
Import PyStr Effects.

(** what the [try] block of [_call_openai] gives for a choice: a response,
    or the exception of the decoding *)
Definition answer_of_choice (backend : ai_reviewer.Backend) (choice : Choice)
  : exn + ai_reviewer.ReviewResponse :=
  if nonempty (default "" (refusal choice)) then
    inr (ai_reviewer.mkReviewResponse [] "")
  else if String.eqb (finish_reason choice) "length" then
    inr (ai_reviewer.mkReviewResponse []
           "Error: Response truncated due to token limit.")
  else ai_reviewer.decode backend (default "" (message_content choice)).

(** what [_call_openai] does with an exception that is no rate limit *)
Definition answer_of_failure (e : exn) : exn + ai_reviewer.ReviewResponse :=
  match exn_cls e with
  | BadRequestError =>
      inr (ai_reviewer.mkReviewResponse []
             "Error: Content was filtered by the API.")
  | _ => inl e
  end.

(** what the [try] block of the first attempt gives: the exception of the
    call, or what the choice leads to *)
Definition first_try (backend : ai_reviewer.Backend) (t : trace)
    (system_prompt user_prompt : string) : exn + ai_reviewer.ReviewResponse :=
  match ai_reviewer.create backend (calls_made t) system_prompt user_prompt with
  | inl e => inl e
  | inr choice => answer_of_choice backend choice
  end.

(** the events of [k] rate-limited attempts, each followed by its sleep *)
Definition limited_attempts (system_prompt user_prompt : string) (k : nat)
  : trace :=
  flat_map (λ attempt, [ModelCall system_prompt user_prompt;
                        Sleep (2 ^ (Z.of_nat attempt + 1))])
           (seq 0 k).

(** every model call of the trace is made with these prompts *)
Definition calls_with (system_prompt user_prompt : string) (t : trace) : Prop :=
  Forall (λ ev, match ev with
                | ModelCall sp up => sp = system_prompt ∧ up = user_prompt
                | _ => True
                end) t.

End Calls.

(** ** More vocabulary: scenarios and texts *)

Module Texts.
Import PyStr Effects.

(** a backend that is rate limited once and then answers *)
Definition recovering_backend : ai_reviewer.Backend :=
  ai_reviewer.mkBackend
    (λ n _ _,
       if (n =? 0)%nat
       then inl (mkExn RateLimitError "Rate limit exceeded")
       else inr (mkChoice None "stop" (Some "{}")))
    (λ _, inr (ai_reviewer.mkReviewResponse [] "Looks good")).

(** a match is inside the text and longer than what replaces it *)
Definition contracting
    (match_at : option ascii → string → option (string * nat)) : Prop :=
  ∀ prev s repl len,
    match_at prev s = Some (repl, len) →
    (String.length repl < len ≤ String.length s)%nat.

(** the fixed text of the user prompt *)
Definition user_prompt_frame : nat :=
  Eval vm_compute in
    String.length (ai_reviewer._build_user_prompt "" "" "" "").

End Texts.

(** ** Calls to a platform API

    A platform client calls the API of its platform.  A call is an event of
    a trace; what it answers is read from an oracle at the number of calls
    made before it.  [Api E X A] is a computation over events [E] and
    exceptions [X]. *)

Module Api.

Definition Api (E X A : Type) : Type := list E → (X + A) * list E.

Definition ret {E X A} (a : A) : Api E X A := λ t, (inr a, t).
Definition raise {E X A} (x : X) : Api E X A := λ t, (inl x, t).
Definition bind {E X A B} (m : Api E X A) (k : A → Api E X B) : Api E X B :=
  λ t, match m t with
       | (inr a, t') => k a t'
       | (inl x, t') => (inl x, t')
       end.
(** [try: body / except: handler] *)
Definition try_except {E X A} (body : Api E X A) (handler : X → Api E X A)
  : Api E X A :=
  λ t, match body t with
       | (inr a, t') => (inr a, t')
       | (inl x, t') => handler x t'
       end.
(** a call whose answer depends on the calls made so far *)
Definition call {E X A} (ev : E) (answer : nat → X + A) : Api E X A :=
  λ t, (answer (length t), t ++ [ev]).

(** [for x in xs: body(x)] *)
Fixpoint for_each {E X A} (xs : list A) (body : A → Api E X unit)
  : Api E X unit :=
  match xs with
  | [] => ret tt
  | x :: rest => bind (body x) (λ _, for_each rest body)
  end.

End Api.

(** ** src/github_client.py *)

Module github_client.
Import Api.

Definition REVIEW_COMMENT_CHUNK_SIZE : Z := 30.

(** the exceptions the client tells apart: [GithubException] with its
    status, and the others, among them the [IndexError] of [[-1]] on an
    empty list and the [ValueError] of [range] with step 0 *)
Inductive exn :=
| GithubException (status : Z) (message : string)
| IndexError
| ValueError
| OtherException (message : string).

(** a comment dict as it is sent: [path], [body], [line] and [side] *)
Record GitHubComment := mkGitHubComment {
  path : string; body : string; line : Z; side : string
}.

Inductive event :=
| GetCommits
| CreateReview (commit : string) (comments : list GitHubComment)
    (review_event body : string)
| CreateReviewComment (body commit path : string) (line : Z) (side : string)
| CreateIssueComment (body : string).

(** what the API answers: the commits of the pull request, and for the
    call number [n] whether it raises *)
Record GitHubApi := mkGitHubApi {
  commits : exn + list string;
  create_review : nat → option exn;
  create_review_comment : nat → option exn;
  create_issue_comment : nat → option exn
}.

Definition answer (raised : option exn) : exn + unit :=
  match raised with Some x => inl x | None => inr tt end.

(** [range(0, stop, step)] for a positive [step]: [fuel] bounds the number
    of elements, and [stop] of them is enough *)
Fixpoint range_from (fuel : nat) (i stop step : Z) : list Z :=
  match fuel with
  | O => []
  | S fuel' =>
      if i <? stop then i :: range_from fuel' (i + step) stop step else []
  end.

(** [range(0, stop, step)] for [0 <= stop]: a [ValueError] for step 0, empty
    for a negative step *)
Definition range_0 (stop step : Z) : exn + list Z :=
  if step =? 0 then inl ValueError
  else if step <? 0 then inr []
  else inr (range_from (Z.to_nat stop) 0 stop step).

(** [xs[i : j]] for [0 <= i <= j] *)
Definition slice {A} (xs : list A) (i j : Z) : list A :=
  take (Z.to_nat (j - i)) (drop (Z.to_nat i) xs).

Definition _chunk_comments {A} (comments : list A) (chunk_size : Z)
  : exn + list (list A) :=
  match range_0 (Z.of_nat (length comments)) chunk_size with
  | inl x => inl x
  | inr starts => inr (map (λ i, slice comments i (i + chunk_size)) starts)
  end.

Section WithApi.
Variable api : GitHubApi.

Definition lift {A} (r : exn + A) : Api event exn A := λ t, (r, t).

(** the body of [for comment in comments] *)
Definition post_individual_step (commit : string) (comment : GitHubComment)
  : Api event exn unit :=
  try_except
    (call (CreateReviewComment (body comment) commit (path comment)
             (line comment) "RIGHT")
          (λ n, answer (create_review_comment api n)))
    (λ error,
       match error with
       | GithubException _ _ => ret tt
       | _ => raise error
       end).

Definition _post_individual_comments (comments : list GitHubComment)
    (commit : string) : Api event exn unit :=
  for_each comments (post_individual_step commit).

(** the body of [for chunk in chunks] *)
Definition post_chunk (last_commit summary : string)
    (chunk : list GitHubComment) : Api event exn unit :=
  try_except
    (call (CreateReview last_commit chunk "COMMENT" summary)
          (λ n, answer (create_review api n)))
    (λ error,
       match error with
       | GithubException status _ =>
           if status =? 422
           then _post_individual_comments chunk last_commit
           else raise error
       | _ => raise error
       end).

Definition post_review_comments (comments : list Effects.PlatformComment)
    (summary : string) : Api event exn unit :=
  match comments with
  | [] => ret tt
  | _ =>
      bind (call GetCommits (λ _, commits api)) (λ commit_list,
      bind (lift (match last commit_list with
                  | Some c => inr c
                  | None => inl IndexError
                  end)) (λ last_commit,
      let github_comments :=
        map (λ comment,
               mkGitHubComment (Effects.path comment) (Effects.body comment)
                 (Effects.line comment) "RIGHT")
            comments in
      bind (lift (_chunk_comments github_comments REVIEW_COMMENT_CHUNK_SIZE))
        (λ chunks, for_each chunks (post_chunk last_commit summary))))
  end.

Definition post_error_comment (error_message : string) : Api event exn unit :=
  call (CreateIssueComment error_message)
       (λ n, answer (create_issue_comment api n)).

End WithApi.

End github_client.

(** ** src/gitlab_client.py *)

Module gitlab_client.
Import Api.

(** a change of [mr.changes()["changes"]]: its ["new_path"], and its
    ["diff"] when the key is there *)
Record Change := mkChange { new_path : string; diff : option string }.

(** the state of the counting loop: [additions] and [deletions] *)
Definition count_step (st : Z * Z) (line : string) : Z * Z :=
  let '(additions, deletions) := st in
  if PyStr.startswith "+" line && negb (PyStr.startswith "+++" line) then
    (additions + 1, deletions)
  else if PyStr.startswith "-" line && negb (PyStr.startswith "---" line) then
    (additions, deletions + 1)
  else st.

(** the body of [for change in changes] *)
Definition file_of_change (change : Change) : diff_parser.ChangedFile :=
  let diff_text := default "" (diff change) in
  let '(additions, deletions) :=
    fold_left count_step (PyStr.split_newline diff_text) (0, 0) in
  diff_parser.mkChangedFile (new_path change)
    (if PyStr.nonempty diff_text then Some diff_text else None)
    additions deletions.

(** [get_files], from the changes the API gave *)
Definition get_files (changes : list Change) : list diff_parser.ChangedFile :=
  fold_left (λ files change, files ++ [file_of_change change]) changes [].

Definition is_fork : bool := false.

Inductive exn :=
| GitlabCreateError (message : string)
| GitlabGetError (message : string)
| OtherException (message : string).

(** [merge_request.diff_refs] *)
Record DiffRefs := mkDiffRefs {
  base_sha : string; start_sha : string; head_sha : string
}.

(** the ["position"] of an inline discussion *)
Record Position := mkPosition {
  pos_base_sha : string; pos_start_sha : string; pos_head_sha : string;
  position_type : string; pos_new_path : string; pos_new_line : Z
}.

Inductive event :=
| CreateDiscussion (body : string) (position : Position)
| CreateNote (body : string).

Record GitLabApi := mkGitLabApi {
  diff_refs : DiffRefs;
  discussions_create : nat → option exn;
  notes_create : nat → option exn
}.

Definition answer (raised : option exn) : exn + unit :=
  match raised with Some x => inl x | None => inr tt end.

Section WithApi.
Variable api : GitLabApi.

(** the body of [for comment in comments] *)
Definition post_discussion (refs : DiffRefs) (comment : Effects.PlatformComment)
  : Api event exn unit :=
  try_except
    (call (CreateDiscussion (Effects.body comment)
             (mkPosition (base_sha refs) (start_sha refs) (head_sha refs)
                "text" (Effects.path comment) (Effects.line comment)))
          (λ n, answer (discussions_create api n)))
    (λ error,
       match error with
       | GitlabCreateError _ => ret tt
       | _ => raise error
       end).

Definition post_review_comments (comments : list Effects.PlatformComment)
    (summary : string) : Api event exn unit :=
  let refs := diff_refs api in
  bind (for_each comments (post_discussion refs))
       (λ _, call (CreateNote summary) (λ n, answer (notes_create api n))).

End WithApi.

End gitlab_client.

(** ** More vocabulary: what a client sends *)

Module Posts.

(** the comment as the GitHub client sends it *)
Definition github_comment (c : Effects.PlatformComment)
  : github_client.GitHubComment :=
  github_client.mkGitHubComment (Effects.path c) (Effects.body c)
    (Effects.line c) "RIGHT".

(** the comment without its side *)
Definition plain (c : github_client.GitHubComment) : Effects.PlatformComment :=
  Effects.mkPlatformComment (github_client.path c) (github_client.body c)
    (github_client.line c).

(** the review that carries a chunk, and the single comment of the fallback *)
Definition review_of (commit summary : string)
    (chunk : list github_client.GitHubComment) : github_client.event :=
  github_client.CreateReview commit chunk "COMMENT" summary.
Definition comment_of (commit : string) (c : github_client.GitHubComment)
  : github_client.event :=
  github_client.CreateReviewComment (github_client.body c) commit
    (github_client.path c) (github_client.line c) "RIGHT".

(** the chunks sent as reviews, in order *)
Definition batches (t : list github_client.event)
  : list (list github_client.GitHubComment) :=
  omap (λ ev, match ev with
              | github_client.CreateReview _ chunk _ _ => Some chunk
              | _ => None
              end) t.

(** the comments sent one by one, in order *)
Definition individuals (t : list github_client.event)
  : list Effects.PlatformComment :=
  omap (λ ev, match ev with
              | github_client.CreateReviewComment body _ path line _ =>
                  Some (Effects.mkPlatformComment path body line)
              | _ => None
              end) t.

(** a call the posting of a review may make: the commits, a review with
    the summary as its body, or a comment on the right side *)
Definition review_call (summary : string) (ev : github_client.event) : Prop :=
  match ev with
  | github_client.GetCommits => True
  | github_client.CreateReview _ _ review_event body =>
      review_event = "COMMENT" ∧ body = summary
  | github_client.CreateReviewComment _ _ _ _ side => side = "RIGHT"
  | github_client.CreateIssueComment _ => False
  end.

Definition is_GithubException (e : github_client.exn) : bool :=
  match e with github_client.GithubException _ _ => true | _ => false end.

(** GitHub answers every review with status 422 *)
Definition rejects_every_review (api : github_client.GitHubApi) : Prop :=
  ∀ n, ∃ message,
    github_client.create_review api n
    = Some (github_client.GithubException 422 message).

(** a single comment fails with a [GithubException] only *)
Definition comments_fail_softly (api : github_client.GitHubApi) : Prop :=
  ∀ n e, github_client.create_review_comment api n = Some e →
         is_GithubException e = true.

(** the line counts as an addition, or as a deletion, for the GitLab client *)
Definition counted_addition (line : string) : bool :=
  PyStr.startswith "+" line && negb (PyStr.startswith "+++" line).
Definition counted_deletion (line : string) : bool :=
  PyStr.startswith "-" line && negb (PyStr.startswith "---" line).

(** the discussion the GitLab client opens for a comment *)
Definition discussion_of (refs : gitlab_client.DiffRefs)
    (c : Effects.PlatformComment) : gitlab_client.event :=
  gitlab_client.CreateDiscussion (Effects.body c)
    (gitlab_client.mkPosition (gitlab_client.base_sha refs)
       (gitlab_client.start_sha refs) (gitlab_client.head_sha refs)
       "text" (Effects.path c) (Effects.line c)).

Definition is_GitlabCreateError (e : gitlab_client.exn) : bool :=
  match e with gitlab_client.GitlabCreateError _ => true | _ => false end.

(** the discussions fail with a [GitlabCreateError] only *)
Definition discussions_fail_softly (api : gitlab_client.GitLabApi) : Prop :=
  ∀ n e, gitlab_client.discussions_create api n = Some e →
         is_GitlabCreateError e = true.

(** a GitHub API on which every call succeeds *)
Definition accepting_github : github_client.GitHubApi :=
  github_client.mkGitHubApi (inr ["c0ffee"; "deadbeef"])
    (λ _, None) (λ _, None) (λ _, None).

(** a GitHub API that rejects every review with 422, and the second
    single comment too *)
Definition rejecting_github : github_client.GitHubApi :=
  github_client.mkGitHubApi (inr ["c0ffee"; "deadbeef"])
    (λ _, Some (github_client.GithubException 422 "Unprocessable Entity"))
    (λ n, if (n =? 3)%nat
          then Some (github_client.GithubException 422 "Unprocessable Entity")
          else None)
    (λ _, None).

(** a GitLab API that refuses the first discussion *)
Definition refusing_gitlab : gitlab_client.GitLabApi :=
  gitlab_client.mkGitLabApi
    (gitlab_client.mkDiffRefs "base" "start" "head")
    (λ n, if (n =? 0)%nat
          then Some (gitlab_client.GitlabCreateError "line not in diff")
          else None)
    (λ _, None).

(** a GitLab API whose second discussion breaks the connection *)
Definition broken_gitlab : gitlab_client.GitLabApi :=
  gitlab_client.mkGitLabApi
    (gitlab_client.mkDiffRefs "base" "start" "head")
    (λ n, if (n =? 1)%nat
          then Some (gitlab_client.OtherException "connection reset")
          else None)
    (λ _, None).

Definition two_comments : list Effects.PlatformComment :=
  [Effects.mkPlatformComment "app.py" "**[error] [bug]**: off by one" 3;
   Effects.mkPlatformComment "app.py" "**[info] [readability]**: rename" 7].

End Posts.

(** ** More vocabulary: a patch as GitLab gives it *)

Module Diffs.

(** how many addition lines the parser finds in the patch *)
Definition addition_lines (patch : string) : nat :=
  length (List.filter diff_parser.is_addition (diff_parser.parse_patch patch)).

(** the diff of a change, the empty text when the key is missing *)
Definition diff_text (change : gitlab_client.Change) : string :=
  default "" (gitlab_client.diff change).

End Diffs.

(** * Properties *)

#[local] Arguments String.append !_ _ / : simpl nomatch.
#[local] Arguments Ascii.eqb !_ !_ / : simpl nomatch.

(** ** Strings *)

Section PyStrFacts.
Import PyStr PyRe.


Lemma contains_char_app c (a b : string) :
  contains_char c (a +:+ b) = contains_char c a || contains_char c b.
Proof.
  induction a as [|x a IH]; simpl; [done |].
  rewrite IH. by rewrite orb_assoc.
Qed.

Lemma split_newline_nonempty s : split_newline s ≠ [].
Proof.
  induction s as [|c s IH]; simpl; [done |].
  destruct (Ascii.eqb c LF); [done |]. by destruct (split_newline s).
Qed.

Lemma split_newline_one_line s :
  contains_char LF s = false → split_newline s = [s].
Proof.
  induction s as [|c s IH]; simpl; [done |].
  intros H. apply orb_false_iff in H as [Hc Hs].
  rewrite Hc. by rewrite (IH Hs).
Qed.

Lemma split_newline_app_nl l s :
  contains_char LF l = false →
  split_newline (l +:+ nl +:+ s) = l :: split_newline s.
Proof.
  induction l as [|c l IH]; simpl in *; [done |].
  intros H. apply orb_false_iff in H as [Hc Hl].
  rewrite Hc. by rewrite (IH Hl).
Qed.

(** splitting undoes joining *)
Lemma split_join_newline (lines : list string) :
  lines ≠ [] → Forall Spec.one_line lines →
  split_newline (join_newline lines) = lines.
Proof.
  induction lines as [|l ls IH]; [done |].
  intros _ Hall. apply Forall_cons in Hall as [Hl Hls].
  destruct ls as [|l' ls].
  - simpl. by apply split_newline_one_line.
  - change (join_newline (l :: l' :: ls))
      with (l +:+ nl +:+ join_newline (l' :: ls)).
    rewrite split_newline_app_nl by exact Hl.
    by rewrite IH.
Qed.

Lemma literal_app lit s : literal lit (lit +:+ s) = Some s.
Proof.
  induction lit as [|c lit IH]; simpl; [done |].
  by rewrite Ascii.eqb_refl.
Qed.

Lemma span_digits_app ds r :
  all_digits ds = true → Spec.digit_free_start r →
  span_digits (ds +:+ r) = (ds, r).
Proof.
  unfold all_digits. induction ds as [|c ds IH]; simpl; intros Hd Hr.
  - destruct r as [|c r]; simpl in *; [done | by rewrite Hr].
  - apply andb_true_iff in Hd as [Hc Hd]. rewrite Hc.
    by rewrite (IH Hd Hr).
Qed.

Lemma digits1_app ds r :
  Spec.number_text ds → Spec.digit_free_start r →
  digits1 (ds +:+ r) = Some (ds, r).
Proof.
  intros [Hne Hd] Hr. unfold digits1.
  rewrite (span_digits_app _ _ Hd Hr). by destruct ds.
Qed.

Lemma span_digits_all_digits s :
  all_digits (span_digits s).1 = true.
Proof.
  unfold all_digits. induction s as [|c s IH]; simpl; [done |].
  destruct (is_digit c) eqn:Hc; [| done].
  destruct (span_digits s) as [ds r]. simpl in *. by rewrite Hc.
Qed.

Lemma digits1_all_digits s ds r :
  digits1 s = Some (ds, r) → all_digits ds = true.
Proof.
  unfold digits1. pose proof (span_digits_all_digits s) as H.
  destruct (span_digits s) as [ds' r']. simpl in H.
  destruct ds'; [done |]. intros [= <- <-]. exact H.
Qed.

Lemma digit_value_nonneg c : is_digit c = true → 0 ≤ digit_value c.
Proof.
  unfold is_digit, digit_value. intros H.
  apply andb_true_iff in H as [H1 _]. apply Nat.leb_le in H1. lia.
Qed.

Lemma int_of_digits_nonneg s : all_digits s = true → 0 ≤ int_of_digits s.
Proof.
  unfold all_digits, int_of_digits.
  assert (Hgen : ∀ l acc, forallb is_digit l = true → 0 ≤ acc →
            0 ≤ fold_left (λ acc c, 10 * acc + digit_value c) l acc).
  { induction l as [|c l IH]; simpl; intros acc Hd Hacc; [done |].
    apply andb_true_iff in Hd as [Hc Hd].
    apply IH; [done |]. pose proof (digit_value_nonneg c Hc). lia. }
  intros H. by apply Hgen.
Qed.

End PyStrFacts.

(** ** The diff line mapper *)

Section ParseFacts.
Import PyStr PyRe diff_parser.

Lemma opt_count_suffix (count : option string) (rest : string) :
  Spec.count_text count →
  opt_count (Spec.count_suffix count +:+ String " " rest) = String " " rest.
Proof.
  destruct count as [d|]; simpl; intros Hd; [| done].
  rewrite digits1_app; [done | done | done].
Qed.

(** a line of the header form matches the pattern, and group 3 is
    [<newStart>] *)
Lemma hunk_header_match old_start old_count new_start new_count trailing :
  Spec.number_text old_start → Spec.count_text old_count →
  Spec.number_text new_start → Spec.count_text new_count →
  HUNK_HEADER_PATTERN_match
    (Spec.hunk_header old_start old_count new_start new_count trailing)
  = Some new_start.
Proof.
  intros Ho Hoc Hn Hnc. unfold HUNK_HEADER_PATTERN_match, Spec.hunk_header.
  rewrite literal_app. simpl.
  rewrite digits1_app; [| done | by destruct old_count]. simpl.
  rewrite (opt_count_suffix old_count) by done. simpl.
  rewrite digits1_app; [| done | by destruct new_count]. simpl.
  rewrite (opt_count_suffix new_count) by done. done.
Qed.

Lemma literal_Some lit s r : literal lit s = Some r → s = lit +:+ r.
Proof.
  revert s. induction lit as [|a lit IH]; intros s; simpl.
  { by intros [= ->]. }
  destruct s as [|b s]; [done |].
  destruct (Ascii.eqb_spec a b) as [<-|]; [| done].
  intros H. by rewrite (IH _ H).
Qed.

Lemma header_not_backslash raw_line g :
  HUNK_HEADER_PATTERN_match raw_line = Some g → startswith "\" raw_line = false.
Proof.
  unfold HUNK_HEADER_PATTERN_match.
  destruct (literal "@@ -" raw_line) as [r1|] eqn:E; [| done].
  apply literal_Some in E as ->. done.
Qed.

(** the pieces of a successful match *)
Lemma header_match_inv raw_line g :
  HUNK_HEADER_PATTERN_match raw_line = Some g →
  ∃ r1 o r2 r4 r5 r6,
    literal "@@ -" raw_line = Some r1 ∧ digits1 r1 = Some (o, r2)
    ∧ literal " +" (opt_count r2) = Some r4 ∧ digits1 r4 = Some (g, r5)
    ∧ literal " @@" (opt_count r5) = Some r6.
Proof.
  unfold HUNK_HEADER_PATTERN_match. intros H.
  destruct (literal "@@ -" raw_line) as [r1|] eqn:E1; [| done].
  cbn [mbind option_bind] in H.
  destruct (digits1 r1) as [[o r2]|] eqn:E2; [| done].
  cbn [mbind option_bind] in H.
  destruct (literal " +" (opt_count r2)) as [r4|] eqn:E3; [| done].
  cbn [mbind option_bind] in H.
  destruct (digits1 r4) as [[g3 r5]|] eqn:E4; [| done].
  cbn [mbind option_bind] in H.
  destruct (literal " @@" (opt_count r5)) as [r6|] eqn:E5; [| done].
  cbn [mbind option_bind] in H. injection H as ->.
  by exists r1, o, r2, r4, r5, r6.
Qed.

Lemma hunk_new_start_nonneg raw_line n :
  Spec.hunk_new_start raw_line = Some n → 0 ≤ n.
Proof.
  unfold Spec.hunk_new_start. intros H.
  destruct (HUNK_HEADER_PATTERN_match raw_line) as [g|] eqn:Hm; [| done].
  injection H as <-.
  apply header_match_inv in Hm as (r1&o&r2&r4&r5&r6&_&_&_&Hg&_).
  apply int_of_digits_nonneg. by eapply digits1_all_digits.
Qed.

(** what one iteration of the loop can do *)
Lemma parse_step_cases result cur raw_line :
  parse_step (result, cur) raw_line = (result, cur)
  ∨ (∃ n, Spec.hunk_new_start raw_line = Some n
          ∧ parse_step (result, cur) raw_line = (result, n))
  ∨ (∃ d, line_number d = cur ∧ Spec.emits raw_line = true
          ∧ Spec.hunk_new_start raw_line = None
          ∧ parse_step (result, cur) raw_line = (result ++ [d], cur + 1)).
Proof.
  unfold parse_step, Spec.hunk_new_start.
  destruct (startswith "\" raw_line); [by left |].
  destruct (HUNK_HEADER_PATTERN_match raw_line) as [g3|]; simpl.
  { right; left. by eexists. }
  destruct raw_line as [|c content]; [by left |].
  destruct (Ascii.eqb_spec c "+") as [->|_].
  { right; right. by exists (mkDiffLine cur content true false false). }
  destruct (Ascii.eqb_spec c "-") as [->|_]; [by left |].
  destruct (Ascii.eqb_spec c " ") as [->|_]; [| by left].
  right; right. by exists (mkDiffLine cur content false false true).
Qed.

(** a line that is no header and does not emit leaves the state alone *)
Lemma parse_step_silent result cur raw_line :
  Spec.hunk_new_start raw_line = None → Spec.emits raw_line = false →
  parse_step (result, cur) raw_line = (result, cur).
Proof.
  intros Hh He.
  destruct (parse_step_cases result cur raw_line) as [H|[(n&Hn&_)|(d&_&Hd&_)]];
    [done | congruence | congruence].
Qed.

(** a line that is no header and emits appends one line at the counter *)
Lemma parse_step_emits result cur raw_line :
  Spec.emits raw_line = true →
  ∃ d, line_number d = cur
       ∧ parse_step (result, cur) raw_line = (result ++ [d], cur + 1).
Proof.
  intros He. destruct raw_line as [|c content]; [done |].
  simpl in He. apply orb_true_iff in He as [He|He];
    apply Ascii.eqb_eq in He as ->; eexists; (split; [| reflexivity]); done.
Qed.

(** the lines already emitted are never touched again *)
Lemma parse_step_acc result cur raw_line :
  parse_step (result, cur) raw_line
  = (result ++ (parse_step ([], cur) raw_line).1,
     (parse_step ([], cur) raw_line).2).
Proof.
  unfold parse_step.
  destruct (startswith "\" raw_line); [by rewrite app_nil_r |].
  destruct (HUNK_HEADER_PATTERN_match raw_line); [by rewrite app_nil_r |].
  destruct raw_line as [|c content]; [by rewrite app_nil_r |].
  destruct (Ascii.eqb c "+"); [done |].
  destruct (Ascii.eqb c "-"); [by rewrite app_nil_r |].
  destruct (Ascii.eqb c " "); [done | by rewrite app_nil_r].
Qed.

Lemma parse_fold_acc lines result cur :
  fold_left parse_step lines (result, cur)
  = (result ++ (fold_left parse_step lines ([], cur)).1,
     (fold_left parse_step lines ([], cur)).2).
Proof.
  revert result cur. induction lines as [|l lines IH]; intros result cur.
  { cbn [fold_left]. by rewrite app_nil_r. }
  cbn [fold_left]. rewrite parse_step_acc.
  destruct (parse_step ([], cur) l) as [r1 c1]. cbn [fst snd].
  rewrite (IH (result ++ r1) c1), (IH r1 c1). cbn [fst snd].
  by rewrite app_assoc.
Qed.

(** the lines of one hunk, after its header: they are numbered from the
    counter on, one by one *)
Lemma parse_hunk_body body cur :
  Forall (λ l, Spec.hunk_new_start l = None) body →
  ∃ ds, fold_left parse_step body ([], cur) = (ds, cur + Z.of_nat (length ds))
        ∧ length ds = length (List.filter Spec.emits body)
        ∧ ∀ (i : nat) d, ds !! i = Some d → line_number d = cur + Z.of_nat i.
Proof.
  revert cur. induction body as [|l body IH]; intros cur Hall.
  { exists []. cbn [fold_left length]. split; [f_equal; lia |]. done. }
  apply Forall_cons in Hall as [Hl Hbody]. cbn [fold_left List.filter].
  destruct (Spec.emits l) eqn:He.
  - destruct (parse_step_emits [] cur l He) as (d & Hd & ->).
    destruct (IH (cur + 1) Hbody) as (ds & Hfold & Hlen & Hnum).
    rewrite parse_fold_acc, Hfold. cbn [fst snd].
    exists (d :: ds). split; [| split].
    + cbn [app length]. f_equal. lia.
    + cbn [length]. by rewrite Hlen.
    + intros [|i] d' Hi; cbn in Hi.
      * injection Hi as <-. lia.
      * rewrite (Hnum i d' Hi). lia.
  - rewrite (parse_step_silent [] cur l Hl He). by apply IH.
Qed.

(** every line number is at least [m] when the counter starts at [m] or
    above and no header sets it below [m] *)
Lemma parse_fold_lower_bound (m : Z) lines cur :
  m ≤ cur →
  (∀ l n, l ∈ lines → Spec.hunk_new_start l = Some n → m ≤ n) →
  Forall (λ d, m ≤ line_number d) (fold_left parse_step lines ([], cur)).1
  ∧ m ≤ (fold_left parse_step lines ([], cur)).2.
Proof.
  revert cur. induction lines as [|l lines IH]; intros cur Hcur Hhdr.
  { cbn [fold_left fst snd]. by split. }
  cbn [fold_left].
  assert (Hrest : ∀ l' n, l' ∈ lines → Spec.hunk_new_start l' = Some n → m ≤ n).
  { intros l' n Hin. apply Hhdr. by right. }
  destruct (parse_step_cases [] cur l) as [H|[(n&Hn&H)|(d&Hd&_&_&H)]];
    rewrite H.
  - by apply IH.
  - apply IH; [| done]. eapply Hhdr; [by left | done].
  - rewrite parse_fold_acc. cbn [fst snd app].
    destruct (IH (cur + 1) ltac:(lia) Hrest) as [Hall Hfin].
    split; [| done]. apply Forall_cons. split; [lia | done].
Qed.

(** the guard on the empty patch changes nothing: the loop over [[""]]
    emits nothing *)
Lemma parse_patch_fold patch :
  parse_patch patch = (fold_left parse_step (split_newline patch) ([], 0)).1.
Proof. by destruct patch. Qed.

Lemma all_digits_one_line s : all_digits s = true → Spec.one_line s.
Proof.
  unfold all_digits, Spec.one_line. induction s as [|c s IH]; simpl; [done |].
  intros H. apply andb_true_iff in H as [Hc Hs]. rewrite (IH Hs), orb_false_r.
  destruct (Ascii.eqb_spec c LF) as [->|]; [done | done].
Qed.

Lemma hunk_header_one_line old_start old_count new_start new_count trailing :
  Spec.number_text old_start → Spec.count_text old_count →
  Spec.number_text new_start → Spec.count_text new_count →
  Spec.one_line trailing →
  Spec.one_line
    (Spec.hunk_header old_start old_count new_start new_count trailing).
Proof.
  intros [_ Ho] Hoc [_ Hn] Hnc Ht. unfold Spec.one_line, Spec.hunk_header.
  assert (Hc : ∀ c, Spec.count_text c →
                    contains_char LF (Spec.count_suffix c) = false).
  { intros [d|] Hd; [| done]. simpl. apply all_digits_one_line, Hd. }
  rewrite !contains_char_app, (Hc _ Hoc), (Hc _ Hnc).
  rewrite (all_digits_one_line _ Ho), (all_digits_one_line _ Hn), Ht. done.
Qed.

(** C2 — Diff-parse line numbering.  A line of the form
    [@@ -<oldStart>[,<oldCount>] +<newStart>[,<newCount>] @@], whatever
    follows it on the line, resets the running new-line counter to
    [<newStart>] and emits nothing.  In a patch, the lines of the hunk after
    such a header (the lines up to the next header or the end) are numbered
    [<newStart>], [<newStart>+1], ... : one number per addition or context
    line, whatever came before the header.  The hunk [@@ -10,4 +10,6 @@] of
    the scenario is numbered 10 to 15, with the additions at 11, 12 and 15. *)
Theorem parse_patch_hunk_line_numbers
    (pre body : list string) (old_start new_start trailing : string)
    (old_count new_count : option string) :
  Spec.number_text old_start → Spec.count_text old_count →
  Spec.number_text new_start → Spec.count_text new_count →
  Spec.one_line trailing →
  Forall Spec.one_line pre → Forall Spec.one_line body →
  Forall (λ l, Spec.hunk_new_start l = None) body →
  let header :=
    Spec.hunk_header old_start old_count new_start new_count trailing in
  (∀ result cur,
      parse_step (result, cur) header = (result, int_of_digits new_start))
  ∧ (∃ ds,
        parse_patch (join_newline (pre ++ header :: body))
        = (fold_left parse_step pre ([], 0)).1 ++ ds
        ∧ length ds = length (List.filter Spec.emits body)
        ∧ ∀ (i : nat) d, ds !! i = Some d →
                         line_number d = int_of_digits new_start + Z.of_nat i)
  ∧ line_number <$> parse_patch Spec.single_hunk_patch = [10; 11; 12; 13; 14; 15]
  ∧ line_number <$> List.filter is_addition (parse_patch Spec.single_hunk_patch)
    = [11; 12; 15].
Proof.
  intros Ho Hoc Hn Hnc Ht Hpre Hbody Hfree header.
  assert (Hstep : ∀ result cur,
             parse_step (result, cur) header = (result, int_of_digits new_start)).
  { intros result cur. unfold parse_step.
    pose proof (hunk_header_match _ _ _ _ trailing Ho Hoc Hn Hnc) as Hm.
    fold header in Hm. by rewrite (header_not_backslash _ _ Hm), Hm. }
  split; [exact Hstep |]. split; [| by vm_compute].
  destruct (parse_hunk_body body (int_of_digits new_start) Hfree)
    as (ds & Hfold & Hlen & Hnum).
  exists ds. split; [| done].
  rewrite parse_patch_fold, split_join_newline.
  - rewrite fold_left_app.
    destruct (fold_left parse_step pre ([], 0)) as [r0 c0].
    cbn [fold_left fst]. rewrite Hstep, parse_fold_acc, Hfold. done.
  - by destruct pre.
  - apply Forall_app. split; [done |]. apply Forall_cons. split; [| done].
    by apply hunk_header_one_line.
Qed.

Lemma parse_patch_hunk_line_numbers_witness :
  let body := [" context"; "+added1"; "+added2"; " context"; " context"; "+added3"] in
  let header := Spec.hunk_header "10" (Some "4") "10" (Some "6") "" in
  (∀ result cur, parse_step (result, cur) header = (result, 10))
  ∧ (∃ ds,
        parse_patch (join_newline ([] ++ header :: body))
        = (fold_left parse_step [] ([], 0)).1 ++ ds
        ∧ length ds = length (List.filter Spec.emits body)
        ∧ ∀ (i : nat) d, ds !! i = Some d → line_number d = 10 + Z.of_nat i)
  ∧ line_number <$> parse_patch Spec.single_hunk_patch = [10; 11; 12; 13; 14; 15]
  ∧ line_number <$> List.filter is_addition (parse_patch Spec.single_hunk_patch)
    = [11; 12; 15].
Proof.
  intros body header.
  apply (parse_patch_hunk_line_numbers [] body "10" "10" "" (Some "4") (Some "6"));
    try (split; reflexivity); try reflexivity;
    repeat (constructor; try reflexivity).
Defined.

(** C6 — Line numbers of [parse_patch], as the code has them.  Every
    [DiffLine] has a line number of at least 0; it is at least 1 when the
    first line of the patch is a hunk header and every hunk header of the
    patch has a [<newStart>] of at least 1.  (A line emitted before the first
    header is numbered from 0, and so is a hunk whose header says [+0].) *)
Theorem parse_patch_line_number_bounds (patch : string) (d : DiffLine) :
  d ∈ parse_patch patch →
  0 ≤ line_number d
  ∧ (Spec.starts_with_hunk_header patch = true →
     Spec.headers_start_from 1 patch = true →
     1 ≤ line_number d).
Proof.
  rewrite parse_patch_fold. intros Hd. split.
  - destruct (parse_fold_lower_bound 0 (split_newline patch) 0) as [Hall _].
    + done.
    + intros l n _. apply hunk_new_start_nonneg.
    + rewrite Forall_forall in Hall. by apply Hall.
  - unfold Spec.starts_with_hunk_header, Spec.headers_start_from.
    destruct (split_newline patch) as [|first rest]; [done |].
    intros Hfirst Hall. apply bool_decide_eq_true in Hfirst as [n Hn].
    cbn [forallb] in Hall. rewrite Hn in Hall.
    apply andb_true_iff in Hall as [Hn1 Hrest]. apply Z.leb_le in Hn1.
    cbn [fold_left] in Hd.
    destruct (parse_step_cases [] 0 first) as [H|[(n'&Hn'&H)|(d'&_&_&Hnone&_)]];
      [| | congruence].
    + unfold Spec.hunk_new_start in Hn.
      destruct (HUNK_HEADER_PATTERN_match first) as [g|] eqn:Hm; [| done].
      unfold parse_step in H. rewrite (header_not_backslash _ _ Hm), Hm in H.
      injection Hn as <-. injection H as H. lia.
    + rewrite H in Hd. assert (n' = n) as -> by congruence.
      destruct (parse_fold_lower_bound 1 rest n Hn1) as [Hbound _].
      * intros l m Hin Hm. rewrite forallb_forall in Hrest.
        apply list_elem_of_In in Hin. specialize (Hrest l Hin).
        rewrite Hm in Hrest. by apply Z.leb_le.
      * rewrite Forall_forall in Hbound. by apply Hbound.
Qed.

Lemma parse_patch_line_number_bounds_witness :
  0 ≤ line_number (mkDiffLine 11 "added1" true false false)
  ∧ 1 ≤ line_number (mkDiffLine 11 "added1" true false false).
Proof.
  destruct (parse_patch_line_number_bounds Spec.single_hunk_patch
              (mkDiffLine 11 "added1" true false false)) as [H0 H1].
  - apply (list_elem_of_lookup_2 _ 1%nat). reflexivity.
  - split; [exact H0 | apply H1; reflexivity].
Defined.

(** C6, as stated, fails: an addition line before any hunk header is given
    line number 0. *)
Lemma parse_patch_line_number_not_positive :
  ¬ (∀ d, d ∈ parse_patch "+x" → 1 ≤ line_number d).
Proof.
  intros H. specialize (H (mkDiffLine 0 "x" true false false)).
  assert (Hin : mkDiffLine 0 "x" true false false ∈ parse_patch "+x").
  { apply (list_elem_of_lookup_2 _ 0%nat). reflexivity. }
  specialize (H Hin). simpl in H. lia.
Qed.

End ParseFacts.

(** ** The comment validator *)

Section ValidateFacts.
Import ai_reviewer review.

Lemma validate_fold file_patches comments valid_comments :
  fold_left (validate_step file_patches) comments valid_comments
  = valid_comments ++ filter (Spec.comment_on_diff_line file_patches) comments.
Proof.
  revert valid_comments.
  induction comments as [|c comments IH]; intros valid_comments.
  { cbn [fold_left]. by rewrite app_nil_r. }
  cbn [fold_left]. rewrite IH. unfold validate_step.
  destruct (file_patches !! file_path c) as [patch|] eqn:Hp.
  - unfold diff_parser.get_valid_comment_lines. case_bool_decide as Hin.
    + rewrite elem_of_list_to_set in Hin.
      rewrite filter_cons_True by (by exists patch).
      by rewrite <- app_assoc.
    + rewrite elem_of_list_to_set in Hin.
      rewrite filter_cons_False; [done |].
      intros (p & Hp' & Hin'). rewrite Hp in Hp'. by injection Hp' as <-.
  - rewrite filter_cons_False; [done |].
    intros (p & Hp' & _). by rewrite Hp in Hp'.
Qed.

(** C1 — Validator soundness.  [validate_comment_lines] keeps exactly the
    comments whose file has a patch in the mapping and whose line number is
    among the new-file line numbers of the parsed patch, in their order in
    the input; a comment whose file has no patch is left out and nothing is
    raised.  In the scenario of the specification, the comment on line 2 is
    kept and the one on line 999 is dropped. *)
Theorem validate_comment_lines_sound
    (comments : list ReviewComment) (file_patches : gmap string string) :
  validate_comment_lines comments file_patches
  = filter (Spec.comment_on_diff_line file_patches) comments
  ∧ (∀ c, c ∈ validate_comment_lines comments file_patches ↔
          c ∈ comments
          ∧ ∃ patch d, file_patches !! file_path c = Some patch
                       ∧ d ∈ diff_parser.parse_patch patch
                       ∧ diff_parser.line_number d = line_number c)
  ∧ (∀ c, file_patches !! file_path c = None →
          c ∉ validate_comment_lines comments file_patches)
  ∧ validate_comment_lines
      [mkReviewComment "src/app.py" 2 error bug "Valid";
       mkReviewComment "src/app.py" 999 info readability "Hallucinated";
       mkReviewComment "src/gone.py" 2 info readability "No patch"]
      {[ "src/app.py" := Spec.SAMPLE_PATCH ]}
    = [mkReviewComment "src/app.py" 2 error bug "Valid"].
Proof.
  assert (Heq : validate_comment_lines comments file_patches
                = filter (Spec.comment_on_diff_line file_patches) comments).
  { unfold validate_comment_lines. by rewrite validate_fold. }
  split; [exact Heq |]. rewrite Heq. split; [| split].
  - intros c. rewrite list_elem_of_filter. unfold Spec.comment_on_diff_line.
    split.
    + intros [(patch & Hp & Hin) Hc]. split; [done |].
      apply list_elem_of_fmap in Hin as (d & Hd & Hin). by exists patch, d.
    + intros [Hc (patch & d & Hp & Hin & Hd)]. split; [| done].
      exists patch. split; [done |]. rewrite <- Hd.
      by apply list_elem_of_fmap_2.
  - intros c Hnone. rewrite list_elem_of_filter.
    intros [(patch & Hp & _) _]. by rewrite Hnone in Hp.
  - by vm_compute.
Qed.

End ValidateFacts.

(** ** The reviewable-file filter *)

Section FilterFacts.
Import PyStr diff_parser.

Lemma drop_app_length (stem t : string) :
  drop (String.length stem) (stem +:+ t) = t.
Proof. induction stem as [|c stem IH]; simpl; [by destruct t | done]. Qed.

(** [rfind] finds no character, or the last one *)
Lemma rfind_spec ch s :
  (rfind ch s = -1 ∧ contains_char ch s = false)
  ∨ (∃ stem tail,
        s = stem +:+ String ch tail ∧ contains_char ch tail = false
        ∧ rfind ch s = Z.of_nat (String.length stem)).
Proof.
  induction s as [|c s IH]; [by left |].
  cbn [rfind contains_char].
  destruct IH as [[Hr Hc]|(stem & tail & -> & Htail & Hr)].
  - rewrite Hr, Hc. cbn [Z.leb Z.compare].
    destruct (Ascii.eqb_spec c ch) as [->|Hne].
    + right. by exists "", s.
    + by left.
  - right. exists (String c stem), tail. rewrite Hr.
    destruct (Z.leb_spec 0 (Z.of_nat (String.length stem))); [| lia].
    split; [done |]. split; [done |]. cbn [String.length]. lia.
Qed.

Lemma rfind_last ch stem tail :
  contains_char ch tail = false →
  rfind ch (stem +:+ String ch tail) = Z.of_nat (String.length stem).
Proof.
  intros Htail.
  destruct (rfind_spec ch (stem +:+ String ch tail))
    as [[_ Hc]|(stem' & tail' & Heq & Htail' & ->)].
  { rewrite contains_char_app in Hc. cbn [contains_char] in Hc.
    rewrite Ascii.eqb_refl in Hc. by rewrite orb_true_r in Hc. }
  f_equal. revert stem' Heq.
  induction stem as [|c stem IH]; intros [|c' stem'] Heq; simpl in Heq.
  - done.
  - injection Heq as <- ->. rewrite contains_char_app in Htail.
    cbn [contains_char] in Htail. rewrite Ascii.eqb_refl in Htail.
    by rewrite orb_true_r in Htail.
  - injection Heq as -> <-. rewrite contains_char_app in Htail'.
    cbn [contains_char] in Htail'. rewrite Ascii.eqb_refl in Htail'.
    by rewrite orb_true_r in Htail'.
  - injection Heq as <- Heq. cbn [String.length]. f_equal. by apply IH.
Qed.

Lemma filter_fold files result :
  fold_left filter_step files result = result ++ List.filter keeps files.
Proof.
  revert result. induction files as [|f files IH]; intros result.
  { cbn [fold_left List.filter]. by rewrite app_nil_r. }
  cbn [fold_left List.filter]. rewrite IH. unfold filter_step, keeps.
  destruct (patch f); [| done].
  destruct (additions f =? 0); [done |].
  destruct (rfind "." (filename f) =? -1); [done |].
  cbn [negb andb]. case_bool_decide; [| done]. by rewrite <- app_assoc.
Qed.

Lemma filter_reviewable_files_keeps files :
  filter_reviewable_files files = List.filter keeps files.
Proof. unfold filter_reviewable_files. by rewrite filter_fold. Qed.

(** a kept file has an extension, and it is on the allow-list *)
Lemma keeps_extension f :
  keeps f = true →
  ∃ e, Spec.extension_of (filename f) e ∧ e ∈ REVIEWABLE_EXTENSIONS
       ∧ is_Some (patch f) ∧ additions f ≠ 0.
Proof.
  unfold keeps. destruct (patch f) as [p|]; [| done]. intros H.
  apply andb_true_iff in H as [H Hext]. apply andb_true_iff in H as [Hadd Hdot].
  apply negb_true_iff, Z.eqb_neq in Hadd, Hdot.
  apply bool_decide_eq_true in Hext.
  destruct (rfind_spec "." (filename f))
    as [[Hr _]|(stem & tail & Hname & Htail & Hr)]; [done |].
  rewrite Hr, Nat2Z.id in Hext. rewrite Hname, drop_app_length in Hext.
  exists (String "." tail). split; [by exists stem, tail |]. by eauto.
Qed.

Lemma keeps_spec f : keeps f = true ↔ ¬ Spec.excluded f.
Proof.
  split.
  - intros Hk. destruct (keeps_extension f Hk) as (e & He & Hin & [p Hp] & Hadd).
    destruct He as (stem & tail & Hname & Htail & ->).
    intros [Hnone|[Hzero|[Hnodot|(e' & He' & Hout)]]].
    + congruence.
    + done.
    + rewrite Hname, contains_char_app in Hnodot. cbn [contains_char] in Hnodot.
      by rewrite orb_true_r in Hnodot.
    + destruct He' as (stem' & tail' & Hname' & Htail' & ->).
      pose proof (rfind_last "." stem tail Htail) as H1.
      pose proof (rfind_last "." stem' tail' Htail') as H2.
      rewrite <- Hname in H1. rewrite <- Hname' in H2.
      assert (Hlen : String.length stem = String.length stem') by lia.
      pose proof (drop_app_length stem (String "." tail)) as D1.
      pose proof (drop_app_length stem' (String "." tail')) as D2.
      rewrite <- Hname in D1. rewrite <- Hname', <- Hlen, D1 in D2.
      by rewrite D2 in Hin.
  - intros Hex. unfold keeps.
    destruct (patch f) as [p|] eqn:Hp; [| destruct Hex; by left].
    destruct (Z.eqb_spec (additions f) 0) as [Hz|_];
      [destruct Hex; right; by left |].
    destruct (rfind_spec "." (filename f))
      as [[_ Hc]|(stem & tail & Hname & Htail & Hr)];
      [destruct Hex; right; right; by left |].
    rewrite Hr. destruct (Z.eqb_spec (Z.of_nat (String.length stem)) (-1));
      [lia |].
    cbn [negb andb]. apply bool_decide_eq_true.
    rewrite Nat2Z.id. rewrite Hname at 1. rewrite drop_app_length.
    destruct (decide (String "." tail ∈ REVIEWABLE_EXTENSIONS)) as [|Hout];
      [done |].
    destruct Hex. right; right; right. exists (String "." tail).
    split; [by exists stem, tail | done].
Qed.

(** C7 — Filter correctness.  [filter_reviewable_files] leaves out every
    file without a patch (a binary file), every file with no addition and
    every file whose path has no extension or an extension outside the
    allow-list; it keeps all the other files, in their order in the input.
    Of [main.py] (one addition), [logo.png] (no patch) and [removed.py] (no
    addition) it keeps [main.py] only. *)
Theorem filter_reviewable_files_correct (files : list ChangedFile) :
  (∃ keep : ChangedFile → bool,
      (∀ f, keep f = true ↔ ¬ Spec.excluded f)
      ∧ filter_reviewable_files files = List.filter keep files)
  ∧ (∀ f, f ∈ filter_reviewable_files files ↔ f ∈ files ∧ ¬ Spec.excluded f)
  ∧ filter_reviewable_files files `sublist_of` files
  ∧ (∀ main_patch removed_patch deletions,
        filter_reviewable_files
          [mkChangedFile "main.py" (Some main_patch) 1 0;
           mkChangedFile "logo.png" None 0 0;
           mkChangedFile "removed.py" (Some removed_patch) 0 deletions]
        = [mkChangedFile "main.py" (Some main_patch) 1 0]).
Proof.
  pose proof (filter_reviewable_files_keeps files) as Heq.
  split; [| split; [| split]].
  - exists keeps. split; [apply keeps_spec | exact Heq].
  - intros f. rewrite Heq, list_elem_of_In, filter_In, <- list_elem_of_In.
    by rewrite keeps_spec.
  - rewrite Heq. clear Heq. induction files as [|f files IH]; [done |].
    cbn [List.filter]. destruct (keeps f).
    + by apply sublist_skip.
    + by apply sublist_cons.
  - intros main_patch removed_patch deletions.
    rewrite filter_reviewable_files_keeps. by vm_compute.
Qed.

(** the filter on a path with a last dot: the text from this dot on is
    looked up in the allow-list *)
Lemma keeps_by_extension f stem tail :
  filename f = stem +:+ String "." tail → contains_char "." tail = false →
  keeps f
  = match patch f with
    | Some _ =>
        negb (additions f =? 0)
        && bool_decide (String "." tail ∈ REVIEWABLE_EXTENSIONS)
    | None => false
    end.
Proof.
  intros Hname Htail. unfold keeps. destruct (patch f); [| done].
  rewrite Hname, (rfind_last "." stem tail Htail).
  destruct (Z.eqb_spec (Z.of_nat (String.length stem)) (-1)); [lia |].
  cbn [negb]. rewrite andb_true_r. by rewrite Nat2Z.id, drop_app_length.
Qed.

Lemma allow_list_spec tail :
  String "." tail ∈ REVIEWABLE_EXTENSIONS
  ↔ tail = "py" ∨ tail = "js" ∨ tail = "ts" ∨ tail = "html".
Proof.
  unfold REVIEWABLE_EXTENSIONS.
  rewrite !elem_of_union, !elem_of_singleton.
  split.
  - intros H. destruct H as [[[H|H]|H]|H]; injection H as ->; tauto.
  - intros [-> | [-> | [-> | ->]]]; tauto.
Qed.

Lemma lower_char_dot c :
  Ascii.eqb (Spec.lower_char c) "." = Ascii.eqb c ".".
Proof. by destruct c as [[] [] [] [] [] [] [] []]. Qed.

Lemma contains_char_lower_dot s :
  contains_char "." (Spec.lower s) = contains_char "." s.
Proof.
  induction s as [|c s IH]; [done |].
  cbn [Spec.lower contains_char]. by rewrite lower_char_dot, IH.
Qed.

(** C10 — Extension matching is case-sensitive and exact.  A file is kept
    exactly when it is in the list, has a patch and an addition, and the
    text from the last dot of its path on is, character for character, one
    of [.py], [.js], [.ts] and [.html].  So a file with patch and additions
    whose path ends in a dot and a dot-free text is kept when this text is
    [py], [js], [ts] or [html] and left out otherwise, in particular when it
    differs from one of the four by the case of its letters only; [MAIN.PY]
    is left out whatever its patch and additions; the dotfile [.py] is kept
    when its patch is present and its additions are positive. *)
Theorem filter_extension_exact
    (files : list ChangedFile) (patch_text : string) (opt_patch : option string)
    (added deleted : Z) :
  0 < added →
  (∀ f, f ∈ filter_reviewable_files files
        ↔ f ∈ files ∧ is_Some (patch f) ∧ additions f ≠ 0
          ∧ ∃ e, Spec.extension_of (filename f) e
                 ∧ (e = ".py" ∨ e = ".js" ∨ e = ".ts" ∨ e = ".html"))
  ∧ (∀ stem tail,
        contains_char "." tail = false →
        let f := mkChangedFile (stem +:+ String "." tail) (Some patch_text)
                   added deleted in
        (filter_reviewable_files [f] = [f]
         ↔ tail = "py" ∨ tail = "js" ∨ tail = "ts" ∨ tail = "html")
        ∧ (filter_reviewable_files [f] = []
           ↔ ¬ (tail = "py" ∨ tail = "js" ∨ tail = "ts" ∨ tail = "html")))
  ∧ (∀ stem tail allowed,
        allowed = "py" ∨ allowed = "js" ∨ allowed = "ts" ∨ allowed = "html" →
        Spec.differs_by_case tail allowed →
        filter_reviewable_files
          [mkChangedFile (stem +:+ String "." tail) (Some patch_text)
             added deleted] = [])
  ∧ filter_reviewable_files [mkChangedFile "MAIN.PY" opt_patch added deleted] = []
  ∧ filter_reviewable_files
      [mkChangedFile ".py" (Some patch_text) added deleted]
    = [mkChangedFile ".py" (Some patch_text) added deleted].
Proof.
  intros Hpos.
  assert (Hone : ∀ stem tail,
            contains_char "." tail = false →
            filter_reviewable_files
              [mkChangedFile (stem +:+ String "." tail) (Some patch_text)
                 added deleted]
            = if bool_decide (String "." tail ∈ REVIEWABLE_EXTENSIONS)
              then [mkChangedFile (stem +:+ String "." tail) (Some patch_text)
                      added deleted]
              else []).
  { intros stem tail Htail. rewrite filter_reviewable_files_keeps.
    cbn [List.filter].
    rewrite (keeps_by_extension
               (mkChangedFile (stem +:+ String "." tail) (Some patch_text)
                  added deleted) stem tail eq_refl Htail).
    cbn [patch additions].
    destruct (Z.eqb_spec added 0) as [|_]; [lia |]. cbn [negb andb].
    by destruct (bool_decide _). }
  split; [| split; [| split; [| split]]].
  - intros f.
    rewrite filter_reviewable_files_keeps, list_elem_of_In, filter_In,
      <- list_elem_of_In.
    split.
    + intros [Hin Hk]. split; [done |].
      destruct (keeps_extension f Hk) as (e & He & Hallowed & Hp & Hadd).
      split; [done |]. split; [done |]. exists e. split; [done |].
      destruct He as (stem & tail & _ & _ & ->).
      apply allow_list_spec in Hallowed.
      destruct Hallowed as [-> | [-> | [-> | ->]]]; tauto.
    + intros (Hin & [p Hp] & Hadd & e & (stem & tail & Hname & Htail & ->) & He).
      split; [done |].
      rewrite (keeps_by_extension f stem tail Hname Htail), Hp.
      apply Z.eqb_neq in Hadd. rewrite Hadd. cbn [negb andb].
      apply bool_decide_eq_true, allow_list_spec.
      destruct He as [He|[He|[He|He]]]; injection He as ->; tauto.
  - intros stem tail Htail. cbn zeta. rewrite (Hone stem tail Htail).
    rewrite <- allow_list_spec.
    destruct (bool_decide_reflect (String "." tail ∈ REVIEWABLE_EXTENSIONS));
      split; split; try done; intros; tauto.
  - intros stem tail allowed Hallowed [Hne Hlower].
    assert (Spec.lower allowed = allowed) as Hl
      by (by destruct Hallowed as [-> | [-> | [-> | ->]]]).
    rewrite Hl in Hlower.
    assert (contains_char "." tail = false) as Htail.
    { rewrite <- contains_char_lower_dot, Hlower.
      by destruct Hallowed as [-> | [-> | [-> | ->]]]. }
    rewrite (Hone stem tail Htail).
    destruct (bool_decide_reflect (String "." tail ∈ REVIEWABLE_EXTENSIONS))
      as [Hin|]; [| done].
    apply allow_list_spec in Hin. exfalso.
    destruct Hin as [-> | [-> | [-> | ->]]]; vm_compute in Hlower; congruence.
  - rewrite filter_reviewable_files_keeps.
    cbn [List.filter]. unfold keeps. cbn [patch additions filename].
    destruct opt_patch; [| done].
    destruct (added =? 0); [done |].
    replace (bool_decide _) with false by (by vm_compute).
    by rewrite andb_false_r.
  - rewrite filter_reviewable_files_keeps.
    cbn [List.filter]. unfold keeps. cbn [patch additions filename].
    destruct (Z.eqb_spec added 0) as [|_]; [lia |].
    replace (bool_decide _) with true by (by vm_compute).
    done.
Qed.

Lemma filter_extension_exact_witness :
  (∀ f, f ∈ filter_reviewable_files
              [mkChangedFile "src/app.ts" (Some "@@ -1 +1 @@") 2 0;
               mkChangedFile "README.md" (Some "@@ -1 +1 @@") 1 0]
        ↔ f ∈ [mkChangedFile "src/app.ts" (Some "@@ -1 +1 @@") 2 0;
               mkChangedFile "README.md" (Some "@@ -1 +1 @@") 1 0]
          ∧ is_Some (patch f) ∧ additions f ≠ 0
          ∧ ∃ e, Spec.extension_of (filename f) e
                 ∧ (e = ".py" ∨ e = ".js" ∨ e = ".ts" ∨ e = ".html"))
  ∧ (∀ stem tail,
        contains_char "." tail = false →
        let f := mkChangedFile (stem +:+ String "." tail) (Some "@@ -1 +1 @@")
                   1 0 in
        (filter_reviewable_files [f] = [f]
         ↔ tail = "py" ∨ tail = "js" ∨ tail = "ts" ∨ tail = "html")
        ∧ (filter_reviewable_files [f] = []
           ↔ ¬ (tail = "py" ∨ tail = "js" ∨ tail = "ts" ∨ tail = "html")))
  ∧ (∀ stem tail allowed,
        allowed = "py" ∨ allowed = "js" ∨ allowed = "ts" ∨ allowed = "html" →
        Spec.differs_by_case tail allowed →
        filter_reviewable_files
          [mkChangedFile (stem +:+ String "." tail) (Some "@@ -1 +1 @@")
             1 0] = [])
  ∧ filter_reviewable_files [mkChangedFile "MAIN.PY" (Some "@@ -1 +1 @@") 1 0] = []
  ∧ filter_reviewable_files [mkChangedFile ".py" (Some "@@ -1 +1 @@") 1 0]
    = [mkChangedFile ".py" (Some "@@ -1 +1 @@") 1 0].
Proof.
  apply (filter_extension_exact
           [mkChangedFile "src/app.ts" (Some "@@ -1 +1 @@") 2 0;
            mkChangedFile "README.md" (Some "@@ -1 +1 @@") 1 0]
           "@@ -1 +1 @@" (Some "@@ -1 +1 @@") 1 0).
  lia.
Defined.

End FilterFacts.

(** ** The summary *)

Section SummaryFacts.
Import PyStr ai_reviewer review.

Lemma Severity_str_eqb (a b : Severity) :
  String.eqb (Severity_str a) (Severity_str b) = bool_decide (a = b).
Proof. by destruct a, b. Qed.

Lemma count_severity_fold (s : Severity) comments acc :
  fold_left
    (λ acc c,
       if String.eqb (Severity_str (severity c)) (Severity_str s)
       then acc + 1 else acc)
    comments acc
  = acc + Spec.count_with_severity s comments.
Proof.
  unfold Spec.count_with_severity. revert acc.
  induction comments as [|c comments IH]; intros acc; cbn [fold_left].
  { simpl. lia. }
  rewrite IH, Severity_str_eqb. case_bool_decide as Hc.
  - rewrite filter_cons_True by done. cbn [length]. lia.
  - by rewrite filter_cons_False.
Qed.

Lemma count_severity_spec (s : Severity) comments :
  count_severity (Severity_str s) comments = Spec.count_with_severity s comments.
Proof. unfold count_severity. by rewrite count_severity_fold. Qed.

(** every comment has one of the three severities *)
Lemma severities_partition comments :
  Z.of_nat (length comments)
  = Spec.count_with_severity error comments
    + Spec.count_with_severity warning comments
    + Spec.count_with_severity info comments.
Proof.
  unfold Spec.count_with_severity.
  induction comments as [|c comments IH]; [done |].
  destruct (severity c) eqn:Hc;
    repeat (first [ rewrite filter_cons_True by congruence
                  | rewrite filter_cons_False by congruence ]);
    cbn [length]; lia.
Qed.

(** C4 — Summary text.  The summary is
    "CodeGuardian Review: Found N issues (E errors, W warnings, I info)"
    where E, W and I count the comments of each severity and N = E+W+I is
    the length of the list.  The nouns are never put in the singular: for
    two errors and one warning [build_summary] gives
    "CodeGuardian Review: Found 3 issues (2 errors, 1 warnings, 0 info)",
    where its docstring shows "1 warning". *)
Theorem build_summary_format (comments : list ReviewComment) :
  let E := Spec.count_with_severity error comments in
  let W := Spec.count_with_severity warning comments in
  let I := Spec.count_with_severity info comments in
  build_summary comments
  = "CodeGuardian Review: Found " +:+ str_of_int (E + W + I)
    +:+ " issues (" +:+ str_of_int E +:+ " errors, "
    +:+ str_of_int W +:+ " warnings, " +:+ str_of_int I +:+ " info)"
  ∧ Z.of_nat (length comments) = E + W + I
  ∧ build_summary Spec.two_errors_one_warning
    = "CodeGuardian Review: Found 3 issues (2 errors, 1 warnings, 0 info)".
Proof.
  intros E W I. split; [| split].
  - unfold build_summary.
    change "error" with (Severity_str error).
    change "warning" with (Severity_str warning).
    change "info" with (Severity_str info).
    rewrite !count_severity_spec, severities_partition. done.
  - apply severities_partition.
  - by vm_compute.
Qed.

(** the summary of two errors and one warning does not end the way the
    docstring of [build_summary] shows *)
Lemma build_summary_one_warning_not_singular :
  endswith "Found 3 issues (2 errors, 1 warning, 0 info)"
           (build_summary Spec.two_errors_one_warning) = false
  ∧ endswith "Found 3 issues (2 errors, 1 warnings, 0 info)"
             (build_summary Spec.two_errors_one_warning) = true.
Proof. by vm_compute. Qed.

End SummaryFacts.

(** ** The review backend adapter: retries and failures *)

Section AdapterFacts.
Import PyStr Effects ai_reviewer.
Variable backend : Backend.

Lemma calls_made_app (t1 t2 : trace) :
  calls_made (t1 ++ t2) = (calls_made t1 + calls_made t2)%nat.
Proof. unfold calls_made. by rewrite List.filter_app, length_app. Qed.

(** an attempt that is rate limited: one call, a sleep of [2^(attempt+1)]
    unless it was the last attempt, and the loop goes on *)
Lemma attempt_body_rate_limited system_prompt user_prompt attempt t e :
  create backend (calls_made t) system_prompt user_prompt = inl e →
  exn_cls e = RateLimitError →
  attempt_body backend system_prompt user_prompt attempt t
  = (inr None,
     t ++ ModelCall system_prompt user_prompt
          :: (if (attempt <? MAX_RETRIES - 1)%nat
              then [Sleep (2 ^ (Z.of_nat attempt + 1))] else [])).
Proof.
  intros Hcall Hcls.
  unfold attempt_body, try_except, bind, chat_completions_create.
  rewrite Hcall, Hcls.
  destruct (attempt <? MAX_RETRIES - 1)%nat.
  - unfold time_sleep, emit, ret. by rewrite <- app_assoc.
  - done.
Qed.

(** an attempt whose call raises an authentication failure raises it,
    after that one call *)
Lemma attempt_body_auth_failure system_prompt user_prompt attempt t e :
  create backend (calls_made t) system_prompt user_prompt = inl e →
  exn_cls e = AuthenticationError →
  attempt_body backend system_prompt user_prompt attempt t
  = (inl e, t ++ [ModelCall system_prompt user_prompt]).
Proof.
  intros Hcall Hcls.
  unfold attempt_body, try_except, bind, chat_completions_create.
  by rewrite Hcall, Hcls.
Qed.

(** C3 — Retry bound under persistent rate limiting.  When every model call
    raises a rate-limit error, the adapter calls the model [MAX_RETRIES] = 3
    times with a sleep between two calls and none after the last: the
    sleeps are [MAX_RETRIES - 1] = 2 and wait [2^1] and [2^2] seconds, that
    is [2^attempt] for the attempts numbered from 1.  It then returns, with
    no comment and the summary "Error: Rate limit exceeded after 3
    retries.", and raises nothing. *)
Theorem call_openai_rate_limited
    (self : AIReviewer) (file_path patch pr_title pr_description : string)
    (t : trace) :
  _is_mock self = false →
  (∀ n system_prompt user_prompt,
      ∃ e, create backend n system_prompt user_prompt = inl e
           ∧ exn_cls e = RateLimitError) →
  let system_prompt := _build_system_prompt self in
  let user_prompt :=
    _build_user_prompt file_path patch pr_title pr_description in
  ∃ response new,
    review_diff backend self file_path patch pr_title pr_description t
    = (inr response, t ++ new)
    ∧ new = [ModelCall system_prompt user_prompt; Sleep (2 ^ 1);
             ModelCall system_prompt user_prompt; Sleep (2 ^ 2);
             ModelCall system_prompt user_prompt]
    ∧ calls_made new = MAX_RETRIES
    ∧ length (sleeps new) = (MAX_RETRIES - 1)%nat
    ∧ sleeps new = (λ attempt, 2 ^ Z.of_nat attempt) <$> seq 1 (MAX_RETRIES - 1)
    ∧ comments response = []
    ∧ summary response
      = "Error: Rate limit exceeded after " +:+ str_of_int (Z.of_nat MAX_RETRIES)
        +:+ " retries."
    ∧ summary response = "Error: Rate limit exceeded after 3 retries.".
Proof.
  intros Hmock Hlimited sp up.
  eexists. eexists. split; [| split; [reflexivity |]].
  - unfold review_diff. rewrite Hmock. fold sp up.
    unfold _call_openai. cbn [seq MAX_RETRIES attempts_loop].
    unfold bind at 1.
    destruct (Hlimited (calls_made t) sp up) as (e0 & H0 & C0).
    rewrite (attempt_body_rate_limited sp up 0 t e0 H0 C0).
    cbn [Nat.ltb Nat.leb Nat.sub MAX_RETRIES]. unfold bind at 1.
    set (t1 := t ++ [ModelCall sp up; Sleep (2 ^ (Z.of_nat 0 + 1))]).
    destruct (Hlimited (calls_made t1) sp up) as (e1 & H1 & C1).
    rewrite (attempt_body_rate_limited sp up 1 t1 e1 H1 C1).
    cbn [Nat.ltb Nat.leb Nat.sub MAX_RETRIES]. unfold bind at 1.
    set (t2 := t1 ++ [ModelCall sp up; Sleep (2 ^ (Z.of_nat 1 + 1))]).
    destruct (Hlimited (calls_made t2) sp up) as (e2 & H2 & C2).
    rewrite (attempt_body_rate_limited sp up 2 t2 e2 H2 C2).
    cbn [Nat.ltb Nat.leb Nat.sub MAX_RETRIES]. unfold ret.
    subst t2 t1. rewrite <- !app_assoc. reflexivity.
  - by vm_compute.
Qed.

(** C8 — Auth short-circuit.  When the first model call of a review raises
    an authentication failure, the review raises that failure after this
    one call: no sleep, no other attempt. *)
Theorem review_diff_auth_failure
    (self : AIReviewer) (file_path patch pr_title pr_description : string)
    (t : trace) (e : exn) :
  _is_mock self = false →
  exn_cls e = AuthenticationError →
  create backend (calls_made t) (_build_system_prompt self)
    (_build_user_prompt file_path patch pr_title pr_description) = inl e →
  ∃ new,
    review_diff backend self file_path patch pr_title pr_description t
    = (inl e, t ++ new)
    ∧ new = [ModelCall (_build_system_prompt self)
               (_build_user_prompt file_path patch pr_title pr_description)]
    ∧ calls_made new = 1%nat
    ∧ sleeps new = [].
Proof.
  intros Hmock Hcls Hcall. eexists. split; [| split; [reflexivity |]].
  - unfold review_diff. rewrite Hmock.
    unfold _call_openai. cbn [seq MAX_RETRIES attempts_loop].
    unfold bind at 1.
    by rewrite (attempt_body_auth_failure _ _ 0 t e Hcall Hcls).
  - done.
Qed.

End AdapterFacts.

Section AdapterScenarios.
Import PyStr Effects ai_reviewer.

Lemma call_openai_rate_limited_witness :
  let system_prompt := _build_system_prompt (AIReviewer_init "sk-test" "") in
  let user_prompt := _build_user_prompt "test.py" "diff" "Test" "Test" in
  ∃ response new,
    review_diff Spec.rate_limited_backend (AIReviewer_init "sk-test" "")
      "test.py" "diff" "Test" "Test" []
    = (inr response, [] ++ new)
    ∧ new = [ModelCall system_prompt user_prompt; Sleep (2 ^ 1);
             ModelCall system_prompt user_prompt; Sleep (2 ^ 2);
             ModelCall system_prompt user_prompt]
    ∧ calls_made new = MAX_RETRIES
    ∧ length (sleeps new) = (MAX_RETRIES - 1)%nat
    ∧ sleeps new = (λ attempt, 2 ^ Z.of_nat attempt) <$> seq 1 (MAX_RETRIES - 1)
    ∧ comments response = []
    ∧ summary response
      = "Error: Rate limit exceeded after " +:+ str_of_int (Z.of_nat MAX_RETRIES)
        +:+ " retries."
    ∧ summary response = "Error: Rate limit exceeded after 3 retries.".
Proof.
  apply (call_openai_rate_limited Spec.rate_limited_backend).
  - reflexivity.
  - intros n system_prompt user_prompt.
    exists (mkExn RateLimitError "Rate limit exceeded"). split; reflexivity.
Defined.

Lemma review_diff_auth_failure_witness :
  ∃ new,
    review_diff Spec.auth_failing_backend (AIReviewer_init "invalid-key" "")
      "test.py" "diff" "Test" "Test" []
    = (inl (mkExn AuthenticationError "Invalid API key"), [] ++ new)
    ∧ new = [ModelCall (_build_system_prompt (AIReviewer_init "invalid-key" ""))
               (_build_user_prompt "test.py" "diff" "Test" "Test")]
    ∧ calls_made new = 1%nat
    ∧ sleeps new = [].
Proof.
  apply (review_diff_auth_failure Spec.auth_failing_backend);
    reflexivity.
Defined.

End AdapterScenarios.

(** ** The orchestrator *)

Section ModelOnly.
Import PyStr Effects ai_reviewer.
Variable backend : Backend.

Lemma platform_posts_app (t1 t2 : trace) :
  platform_posts (t1 ++ t2) = platform_posts t1 ++ platform_posts t2.
Proof. unfold platform_posts. by rewrite List.filter_app. Qed.

Lemma model_only_ret {A} (a : A) : model_only (ret a).
Proof. intros t. exists []. by rewrite app_nil_r. Qed.

Lemma model_only_raise {A} (e : exn) : model_only (@raise A e).
Proof. intros t. exists []. by rewrite app_nil_r. Qed.

Lemma model_only_lift {A} (r : exn + A) : model_only (lift r).
Proof. intros t. exists []. by rewrite app_nil_r. Qed.

Lemma model_only_bind {A B} (m : M A) (k : A → M B) :
  model_only m → (∀ a, model_only (k a)) → model_only (bind m k).
Proof.
  intros Hm Hk t. unfold bind. destruct (Hm t) as (n1 & H1 & P1).
  destruct (m t) as [[e|a] t1]; simpl in H1; subst t1.
  - by exists n1.
  - destruct (Hk a (t ++ n1)) as (n2 & H2 & P2). exists (n1 ++ n2).
    rewrite H2, app_assoc, platform_posts_app, P1, P2. done.
Qed.

Lemma model_only_try_except {A} (body : M A) (handler : exn → M A) :
  model_only body → (∀ e, model_only (handler e)) →
  model_only (try_except body handler).
Proof.
  intros Hm Hk t. unfold try_except. destruct (Hm t) as (n1 & H1 & P1).
  destruct (body t) as [[e|a] t1]; simpl in H1; subst t1.
  - destruct (Hk e (t ++ n1)) as (n2 & H2 & P2). exists (n1 ++ n2).
    rewrite H2, app_assoc, platform_posts_app, P1, P2. done.
  - by exists n1.
Qed.

Lemma model_only_create system_prompt user_prompt :
  model_only (chat_completions_create backend system_prompt user_prompt).
Proof. intros t. by exists [ModelCall system_prompt user_prompt]. Qed.

Lemma model_only_sleep wait_time : model_only (time_sleep wait_time).
Proof. intros t. by exists [Sleep wait_time]. Qed.

Lemma model_only_attempt_body system_prompt user_prompt attempt :
  model_only (attempt_body backend system_prompt user_prompt attempt).
Proof.
  unfold attempt_body. apply model_only_try_except.
  - apply model_only_bind; [apply model_only_create |]. intros choice.
    destruct (nonempty (default "" (refusal choice))); [apply model_only_ret |].
    destruct (String.eqb (finish_reason choice) "length");
      [apply model_only_ret |].
    apply model_only_bind; [apply model_only_lift |].
    intros parsed. apply model_only_ret.
  - intros e. destruct (exn_cls e);
      try apply model_only_raise; try apply model_only_ret.
    destruct (attempt <? MAX_RETRIES - 1)%nat; [| apply model_only_ret].
    apply model_only_bind; [apply model_only_sleep |].
    intros _. apply model_only_ret.
Qed.

Lemma model_only_attempts_loop system_prompt user_prompt attempts :
  model_only (attempts_loop backend system_prompt user_prompt attempts).
Proof.
  induction attempts as [|attempt rest IH]; cbn [attempts_loop].
  { apply model_only_ret. }
  apply model_only_bind; [apply model_only_attempt_body |].
  intros [response|]; [apply model_only_ret | exact IH].
Qed.

Lemma model_only_review_diff self file_path patch pr_title pr_description :
  model_only (review_diff backend self file_path patch pr_title pr_description).
Proof.
  unfold review_diff. destruct (_is_mock self); [apply model_only_ret |].
  apply model_only_attempts_loop.
Qed.

Lemma model_only_review_files self files pr_title pr_description :
  model_only (review_files backend self files pr_title pr_description).
Proof.
  unfold review_files. generalize (@nil ReviewComment).
  induction files as [|[file_path patch] files IH]; intros all_comments;
    cbn [review_files_loop].
  { apply model_only_ret. }
  apply model_only_bind; [apply model_only_review_diff |].
  intros response. apply IH.
Qed.

End ModelOnly.

Section MainFacts.
Import PyStr Effects ai_reviewer review.

(** fetching the project context leaves the trace alone *)
Lemma fetch_project_context_pure platform t :
  _fetch_project_context platform t = (Runs.project_context platform, t).
Proof.
  unfold Runs.project_context, _fetch_project_context, bind, lift.
  destruct (get_file_content platform "AGENTS.md") as [e|[content|]];
    [done | | done].
  by destruct (nonempty content && strip_nonempty content).
Qed.

(** when the platform answers the reading calls, past the fork check and
    with a file to review, [main] is its [try] statement *)
Lemma main_review_phase backend platform OPENAI_API_KEY
    context project_text raw_files t :
  Runs.answers platform context project_text raw_files →
  Runs.reviewable_files raw_files ≠ [] →
  main backend platform OPENAI_API_KEY t
  = try_except
      (review_phase backend platform
         (AIReviewer_init OPENAI_API_KEY project_text) context
         (Runs.reviewable_files raw_files))
      (review_handler platform) t.
Proof.
  intros (Hcontext & Hproject & Hfork & Hfiles) Hne.
  unfold main, bind at 1. unfold lift at 1. rewrite Hcontext.
  unfold bind at 1. rewrite fetch_project_context_pure, Hproject.
  unfold bind at 1. unfold lift at 1. rewrite Hfork.
  unfold bind at 1. unfold lift at 1. rewrite Hfiles.
  fold (Runs.reviewable_files raw_files).
  by destruct (Runs.reviewable_files raw_files).
Qed.

(** C5 — An authentication failure in the review phase, as the code treats
    it.  The adapter raises it, and the [except Exception] clause of [main]
    catches it like any other exception: [main] posts no review and calls
    [post_error_comment] with the note "CodeGuardian encountered an error:
    <error>", and the run ends as this call ends: [main] returns when the
    note is posted, and raises what the posting raises otherwise.  The
    authentication failure itself does not leave [main]. *)
Theorem main_auth_failure_posts_error_comment
    (backend : Backend) (platform : Platform) (OPENAI_API_KEY : string)
    (context : PlatformContext) (project_text : string)
    (raw_files : list diff_parser.ChangedFile)
    (t t' : trace) (e : exn) :
  let reviewer := AIReviewer_init OPENAI_API_KEY project_text in
  let reviewable := Runs.reviewable_files raw_files in
  let note := "CodeGuardian encountered an error: " +:+ exn_str e in
  Runs.answers platform context project_text raw_files →
  reviewable ≠ [] →
  review_files backend reviewer
    (map (λ f, (diff_parser.filename f, patch_text f)) reviewable)
    (title context) (description context) t = (inl e, t') →
  exn_cls e = AuthenticationError →
  main backend platform OPENAI_API_KEY t
  = (posted (post_error_comment_raises platform t' note),
     t' ++ [PostErrorComment note])
  ∧ platform_posts (main backend platform OPENAI_API_KEY t).2
    = platform_posts t ++ [PostErrorComment note].
Proof.
  intros reviewer reviewable note Hanswers Hnonempty Hreview Hcls.
  assert (Hmain : main backend platform OPENAI_API_KEY t
                  = (posted (post_error_comment_raises platform t' note),
                     t' ++ [PostErrorComment note])).
  { rewrite (main_review_phase _ _ _ context project_text raw_files t) by done.
    unfold try_except, review_phase, bind.
    fold reviewer reviewable. rewrite Hreview.
    unfold review_handler, is_Exception. by rewrite Hcls. }
  split; [exact Hmain |]. rewrite Hmain. cbn [snd].
  destruct (model_only_review_files backend reviewer
              (map (λ f, (diff_parser.filename f, patch_text f)) reviewable)
              (title context) (description context) t) as (new & Hnew & Hposts).
  rewrite Hreview in Hnew. cbn [snd] in Hnew. subst t'.
  rewrite !platform_posts_app, Hposts, app_nil_r. done.
Qed.

Lemma main_auth_failure_posts_error_comment_witness :
  main Spec.auth_failing_backend Spec.sample_platform "sk-test" []
  = (posted
       (post_error_comment_raises Spec.sample_platform
          [ModelCall (_build_system_prompt (AIReviewer_init "sk-test" ""))
             (_build_user_prompt "src/app.py" Spec.SAMPLE_PATCH "Test" "Test")]
          ("CodeGuardian encountered an error: "
           +:+ exn_str (mkExn AuthenticationError "Invalid API key"))),
     [ModelCall (_build_system_prompt (AIReviewer_init "sk-test" ""))
        (_build_user_prompt "src/app.py" Spec.SAMPLE_PATCH "Test" "Test")]
     ++ [PostErrorComment
           ("CodeGuardian encountered an error: "
            +:+ exn_str (mkExn AuthenticationError "Invalid API key"))])
  ∧ platform_posts
      (main Spec.auth_failing_backend Spec.sample_platform "sk-test" []).2
    = platform_posts []
      ++ [PostErrorComment
            ("CodeGuardian encountered an error: "
             +:+ exn_str (mkExn AuthenticationError "Invalid API key"))].
Proof.
  apply (main_auth_failure_posts_error_comment
           Spec.auth_failing_backend Spec.sample_platform "sk-test"
           (mkPlatformContext 1 "Test" "Test" "test123" "owner/repo") ""
           [diff_parser.mkChangedFile "src/app.py" (Some Spec.SAMPLE_PATCH) 2 0]
           []).
  - repeat split; reflexivity.
  - by vm_compute.
  - by vm_compute.
  - reflexivity.
Defined.

(** C5, as stated, fails: with a backend that rejects the credential on the
    first call, and a platform that accepts the note, [main] raises nothing;
    it returns after one call to [post_error_comment]. *)
Lemma main_auth_failure_not_propagated :
  create Spec.auth_failing_backend 0
    (_build_system_prompt (AIReviewer_init "sk-test" ""))
    (_build_user_prompt "src/app.py" Spec.SAMPLE_PATCH "Test" "Test")
  = inl (mkExn AuthenticationError "Invalid API key")
  ∧ (run (main Spec.auth_failing_backend Spec.sample_platform "sk-test")).1
    = inr tt
  ∧ platform_posts
      (run (main Spec.auth_failing_backend Spec.sample_platform "sk-test")).2
    = [PostErrorComment "CodeGuardian encountered an error: Invalid API key"].
Proof. by vm_compute. Qed.

End MainFacts.

(** ** The sanitizer *)

Section SanitizeFacts.
Import PyStr PyRe ai_reviewer.

Lemma take_length n s : (String.length (take n s) ≤ n)%nat.
Proof.
  revert s. induction n as [|n IH]; intros [|c s]; simpl; try lia.
  specialize (IH s). lia.
Qed.

Lemma take_all n s : (String.length s ≤ n)%nat → take n s = s.
Proof.
  revert s. induction n as [|n IH]; intros [|c s]; simpl; try done; try lia.
  intros H. rewrite IH; [done | lia].
Qed.



Lemma remove_char_absent c s : contains_char c s = false → remove_char c s = s.
Proof.
  induction s as [|c' s IH]; simpl; [done |].
  intros H. apply orb_false_iff in H as [-> Hs]. by rewrite IH.
Qed.

(** the truncation at the end is a prefix of the stripped text *)
Lemma sanitize_input_pipeline text :
  _sanitize_input text = take MAX_INPUT_LENGTH (Spec.strip_markdown text).
Proof.
  unfold _sanitize_input. destruct text as [|c text]; [done |].
  cbn [nonempty negb]. fold (Spec.strip_markdown (String c text)).
  destruct (Nat.ltb_spec MAX_INPUT_LENGTH
              (String.length (Spec.strip_markdown (String c text)))); [done |].
  by rewrite take_all.
Qed.

(** *** Backticks: all of them go *)

Lemma count_run_S c n c' s :
  count_run c (S n) (String c' s)
  = if Ascii.eqb c' c then S (count_run c n s) else O.
Proof. done. Qed.

Lemma count_run_idem c n s : count_run c (count_run c n s) s = count_run c n s.
Proof.
  revert s. induction n as [|n IH]; intros [|c' s]; try done.
  rewrite count_run_S. destruct (Ascii.eqb c' c) eqn:Hc; [| done].
  rewrite count_run_S, Hc. by rewrite IH.
Qed.

Lemma sub_backticks prev skip s :
  count_run "`" skip s = skip →
  sub (λ _, match_backticks) prev skip s = remove_char "`" s.
Proof.
  revert prev skip. induction s as [|c s IH]; intros prev skip Hskip; [done |].
  cbn [sub remove_char]. destruct skip as [|k].
  - unfold match_backticks. rewrite count_run_S.
    destruct (Ascii.eqb c "`") eqn:Hc.
    + cbn [Nat.leb Nat.sub String.append]. rewrite Nat.sub_0_r.
      apply IH, count_run_idem.
    + cbn [Nat.leb]. f_equal. by apply IH.
  - rewrite count_run_S in Hskip. destruct (Ascii.eqb c "`"); [| done].
    apply IH. by injection Hskip.
Qed.

Lemma strip_backticks_remove s : strip_backticks s = remove_char "`" s.
Proof. by apply sub_backticks. Qed.

(** *** The scan of [re.sub] *)

Lemma length_append (a b : string) :
  String.length (a +:+ b) = (String.length a + String.length b)%nat.
Proof. induction a as [|c a IH]; simpl; [done | by rewrite IH]. Qed.

Lemma append_nil_r (a : string) : a +:+ "" = a.
Proof. induction a as [|c a IH]; simpl; [done | by rewrite IH]. Qed.


(** before the first place where the pattern can match, the text is copied *)
Lemma sub_prefix match_at trig prev pre s :
  Spec.triggered_by trig match_at → contains_char trig pre = false →
  sub match_at prev 0 (pre +:+ s)
  = pre +:+ sub match_at (last_char prev pre) 0 s.
Proof.
  intros Htrig. revert prev. induction pre as [|c pre IH]; intros prev Hpre.
  { done. }
  cbn [contains_char] in Hpre. apply orb_false_iff in Hpre as [Hc Hpre].
  cbn [String.append sub last_char]. rewrite Htrig.
  - by rewrite IH.
  - intros ->. by rewrite Ascii.eqb_refl in Hc.
Qed.

Lemma sub_untriggered match_at trig prev s :
  Spec.triggered_by trig match_at → contains_char trig s = false →
  sub match_at prev 0 s = s.
Proof.
  intros Htrig Hs. rewrite <- (append_nil_r s) at 1.
  rewrite (sub_prefix _ trig) by done. cbn [sub]. apply append_nil_r.
Qed.




(** *** The patterns *)




Lemma literal_head_ne a lit c r : c ≠ a → literal (String a lit) (String c r) = None.
Proof.
  intros Hne. cbn [literal].
  destruct (Ascii.eqb_spec a c) as [->|]; [done | done].
Qed.

Lemma count_run_head_ne c n c' r : c' ≠ c → count_run c n (String c' r) = 0%nat.
Proof.
  intros Hne. destruct n; [done |]. rewrite count_run_S.
  destruct (Ascii.eqb_spec c' c) as [->|]; [done | done].
Qed.

Lemma match_image_triggered : Spec.triggered_by "!" (λ _, match_image).
Proof.
  intros prev c r Hne. unfold match_image. by rewrite literal_head_ne.
Qed.

Lemma match_link_triggered : Spec.triggered_by "[" (λ _, match_link).
Proof.
  intros prev c r Hne. unfold match_link. by rewrite literal_head_ne.
Qed.

Lemma match_emphasis_triggered : Spec.triggered_by "*" (λ _, match_emphasis).
Proof.
  intros prev c r Hne. unfold match_emphasis. by rewrite count_run_head_ne.
Qed.

Lemma match_heading_triggered : Spec.triggered_by "#" match_heading.
Proof.
  intros prev c r Hne. unfold match_heading. rewrite count_run_head_ne by done.
  cbn [Nat.leb]. by rewrite andb_false_r.
Qed.









(** *** The substitutions, one by one *)






(** the five patterns match no empty string, as [sub] takes for granted *)
Lemma patterns_consume prev s repl len :
  match_image s = Some (repl, len) ∨ match_emphasis s = Some (repl, len)
  ∨ match_link s = Some (repl, len) ∨ match_heading prev s = Some (repl, len)
  ∨ match_backticks s = Some (repl, len) →
  (1 ≤ len)%nat.
Proof.
  assert (Hlink : ∀ r l n, match_link r = Some (l, n) → (1 ≤ n)%nat).
  { intros r l n. unfold match_link.
    destruct (literal "[" r) as [r1|]; [| done]. cbn [mbind option_bind].
    destruct (span_until "]" r1) as [[label r2]|]; [| done].
    cbn [mbind option_bind].
    destruct (literal "(" r2) as [r3|]; [| done]. cbn [mbind option_bind].
    destruct (span_until ")" r3) as [[url r4]|]; [| done].
    cbn [mbind option_bind]. intros [= _ <-]. lia. }
  intros [H|[H|[H|[H|H]]]].
  - unfold match_image in H.
    destruct (literal "!" s) as [r|]; [| done]. cbn [mbind option_bind] in H.
    destruct (match_link r) as [[label n]|]; [| done].
    cbn [mbind option_bind] in H. injection H as _ <-. lia.
  - unfold match_emphasis in H. revert H.
    induction (count_run "*" 3 s) as [|k IH]; [done |].
    cbn [emphasis_from]. unfold emphasis_try at 1.
    destruct (span_lazy_star (drop (S k) s)) as [[g r]|];
      cbn [mbind option_bind]; [| exact IH].
    intros [= _ <-]. lia.
  - by eapply Hlink.
  - unfold match_heading in H.
    set (h := count_run "#" 6 s) in *. set (w := count_space (drop h s)) in *.
    destruct (Nat.leb_spec 1 h) as [Hh|_].
    + destruct (_ && _ && _); [| done]. injection H as _ <-. lia.
    + by rewrite andb_false_r in H.
  - unfold match_backticks in H.
    set (n := count_run "`" 3 s) in *.
    destruct (Nat.leb_spec 1 n); [| done].
    injection H as _ <-. done.
Qed.

(** *** The whole sanitizer on one construct *)

Lemma markdown_free_spec s :
  Spec.markdown_free s = true →
  contains_char "!" s = false ∧ contains_char "[" s = false
  ∧ contains_char "]" s = false ∧ contains_char "*" s = false
  ∧ contains_char "#" s = false ∧ contains_char "`" s = false.
Proof.
  unfold Spec.markdown_free. cbn [forallb]. intros H.
  repeat (apply andb_true_iff in H as [?%negb_true_iff H]). done.
Qed.


Lemma strip_images_id s :
  contains_char "!" s = false → strip_images s = s.
Proof. apply sub_untriggered, match_image_triggered. Qed.

Lemma strip_emphasis_id s :
  contains_char "*" s = false → strip_emphasis s = s.
Proof. apply sub_untriggered, match_emphasis_triggered. Qed.

Lemma strip_links_id s :
  contains_char "[" s = false → strip_links s = s.
Proof. apply sub_untriggered, match_link_triggered. Qed.

Lemma strip_headings_id s :
  contains_char "#" s = false → strip_headings s = s.
Proof. apply sub_untriggered, match_heading_triggered. Qed.

Lemma strip_backticks_id s :
  contains_char "`" s = false → strip_backticks s = s.
Proof. intros H. rewrite strip_backticks_remove. by apply remove_char_absent. Qed.







(** C9, on the text [a], a backtick, (b): the result is a link, the label
    [a] and the target [b] in the syntax the link pattern matches, so that
    sanitizing it again changes it; the sanitizer has not stripped the text
    down to the label. *)
Lemma sanitize_input_leaves_link :
  _sanitize_input "[a]`(b)" = "[" +:+ "a" +:+ "](" +:+ "b" +:+ ")"
  ∧ match_link (_sanitize_input "[a]`(b)") = Some ("a", 6%nat)
  ∧ _sanitize_input (_sanitize_input "[a]`(b)") = "a"
  ∧ _sanitize_input (_sanitize_input "[a]`(b)") ≠ _sanitize_input "[a]`(b)".
Proof. by vm_compute. Qed.

End SanitizeFacts.

(** ** More on the diff line mapper *)

Section ParseMore.
Import PyStr PyRe diff_parser PatchLines.

(** a line that emits appends exactly its payload at the counter *)
Lemma parse_step_emits_payload result cur raw_line :
  Spec.emits raw_line = true →
  ∃ d, line_number d = cur
       ∧ DiffLine_payload d = line_payload raw_line
       ∧ parse_step (result, cur) raw_line = (result ++ [d], cur + 1).
Proof.
  intros He. destruct raw_line as [|c content]; [done |].
  simpl in He. apply orb_true_iff in He as [He|He];
    apply Ascii.eqb_eq in He as ->; eexists;
    (split; [| split; [| reflexivity]]); done.
Qed.

(** a header sets the counter, whatever the state *)
Lemma parse_step_header result cur raw_line n :
  Spec.hunk_new_start raw_line = Some n →
  parse_step (result, cur) raw_line = (result, n).
Proof.
  unfold Spec.hunk_new_start, parse_step. intros H.
  destruct (HUNK_HEADER_PATTERN_match raw_line) as [g|] eqn:Hm; [| done].
  rewrite (header_not_backslash _ _ Hm). by injection H as <-.
Qed.

(** a line emits or is a header, never both *)
Lemma emits_not_header raw_line :
  Spec.emits raw_line = true → Spec.hunk_new_start raw_line = None.
Proof.
  intros He.
  destruct (parse_step_cases [] 0 raw_line) as [H|[(n&_&H)|(d&_&_&Hn&_)]];
    [| | done];
    destruct (parse_step_emits [] 0 raw_line He) as (d' & _ & H');
    rewrite H' in H; by injection H.
Qed.

Lemma parse_fold_payload lines cur :
  DiffLine_payload <$> (fold_left parse_step lines ([], cur)).1
  = line_payload <$> List.filter Spec.emits lines.
Proof.
  revert cur. induction lines as [|l lines IH]; intros cur; [done |].
  cbn [fold_left List.filter]. destruct (Spec.emits l) eqn:He.
  - destruct (parse_step_emits_payload [] cur l He) as (d & _ & Hp & ->).
    rewrite parse_fold_acc. cbn [fst app]. rewrite fmap_cons, Hp, IH. done.
  - destruct (parse_step_cases [] cur l) as [H|[(n&_&H)|(d&_&He'&_)]];
      [| | congruence]; rewrite H; apply IH.
Qed.

Lemma parse_patch_join lines :
  Forall Spec.one_line lines →
  parse_patch (join_newline lines) = (fold_left parse_step lines ([], 0)).1.
Proof.
  intros Hall. rewrite parse_patch_fold. destruct lines as [|l lines]; [done |].
  by rewrite split_join_newline.
Qed.

(** X1 — What [parse_patch] emits.  The [DiffLine]s are, in order, the
    lines of the patch that begin with [+] or a space: the content is the
    line without its first character, an addition is flagged [is_addition]
    and a context line [is_context], never both, and no [DiffLine] is
    flagged [is_deletion].  A patch without such a line parses to the empty
    list. *)
Theorem parse_patch_payload (patch : string) :
  DiffLine_payload <$> parse_patch patch
  = line_payload <$> List.filter Spec.emits (split_newline patch)
  ∧ length (parse_patch patch)
    = length (List.filter Spec.emits (split_newline patch))
  ∧ (∀ d, d ∈ parse_patch patch →
          is_deletion d = false ∧ is_addition d = negb (is_context d))
  ∧ (List.filter Spec.emits (split_newline patch) = [] → parse_patch patch = []).
Proof.
  assert (Hp : DiffLine_payload <$> parse_patch patch
               = line_payload <$> List.filter Spec.emits (split_newline patch)).
  { rewrite parse_patch_fold. apply parse_fold_payload. }
  split; [exact Hp |]. split; [| split].
  - apply (f_equal length) in Hp. by rewrite !length_fmap in Hp.
  - intros d Hd. apply (list_elem_of_fmap_2 DiffLine_payload) in Hd.
    rewrite Hp in Hd. apply list_elem_of_fmap in Hd as (l & Hl & Hin).
    apply list_elem_of_In, filter_In in Hin as [_ He].
    destruct l as [|c r]; [done |]. unfold DiffLine_payload in Hl.
    cbn [line_payload] in Hl. injection Hl as _ -> -> ->.
    split; [done |]. cbn [Spec.emits] in He.
    apply orb_true_iff in He as [He|He]; apply Ascii.eqb_eq in He as ->; done.
  - intros Hnone. rewrite Hnone in Hp. by destruct (parse_patch patch).
Qed.

Lemma parse_fold_significant lines st :
  fold_left parse_step (List.filter significant lines) st
  = fold_left parse_step lines st.
Proof.
  revert st. induction lines as [|l lines IH]; intros [result cur]; [done |].
  cbn [List.filter fold_left]. destruct (significant l) eqn:Hs.
  - cbn [fold_left]. apply IH.
  - unfold significant, is_header in Hs. apply orb_false_iff in Hs as [Hh He].
    apply bool_decide_eq_false in Hh.
    rewrite (parse_step_silent result cur l); [apply IH | | done].
    destruct (Spec.hunk_new_start l); [| done]. destruct Hh. by eexists.
Qed.

Lemma Forall_one_line_filter f lines :
  Forall Spec.one_line lines → Forall Spec.one_line (List.filter f lines).
Proof.
  induction 1 as [|l lines Hl Hall IH]; cbn [List.filter]; [done |].
  destruct (f l); [by constructor | done].
Qed.

(** X2 — Lines that do not count.  Taking the deletions, the empty lines,
    the "no newline at end of file" markers and every other line that is
    neither a hunk header, an addition nor a context line out of a patch
    changes nothing of what [parse_patch] returns. *)
Theorem parse_patch_ignores_silent_lines (lines : list string) :
  Forall Spec.one_line lines →
  parse_patch (join_newline (List.filter significant lines))
  = parse_patch (join_newline lines).
Proof.
  intros Hall. rewrite !parse_patch_join by (done || by apply Forall_one_line_filter).
  by rewrite parse_fold_significant.
Qed.

Lemma parse_patch_ignores_silent_lines_witness :
  parse_patch
    (join_newline
       (List.filter significant
          ["@@ -1,2 +1,2 @@"; "-old_line"; "+new_line";
           "\ No newline at end of file"; ""; "garbage"]))
  = parse_patch
      (join_newline
         ["@@ -1,2 +1,2 @@"; "-old_line"; "+new_line";
          "\ No newline at end of file"; ""; "garbage"]).
Proof.
  apply parse_patch_ignores_silent_lines.
  repeat (constructor; try reflexivity).
Defined.

(** X3 — Hunks are parsed independently.  When the second part of a patch
    begins with a hunk header, the patch parses to what its first part
    parses to, followed by what its second part parses to on its own. *)
Theorem parse_patch_hunks_independent
    (first_part rest : list string) (header : string) :
  Forall Spec.one_line first_part → Forall Spec.one_line (header :: rest) →
  is_header header = true →
  parse_patch (join_newline (first_part ++ header :: rest))
  = parse_patch (join_newline first_part)
    ++ parse_patch (join_newline (header :: rest)).
Proof.
  intros H1 H2 Hh. apply bool_decide_eq_true in Hh as [n Hn].
  rewrite !parse_patch_join by (done || by apply Forall_app).
  rewrite fold_left_app.
  destruct (fold_left parse_step first_part ([], 0)) as [r1 c1].
  cbn [fold_left fst]. rewrite !(parse_step_header _ _ _ _ Hn).
  by rewrite parse_fold_acc.
Qed.

Lemma parse_patch_hunks_independent_witness :
  parse_patch
    (join_newline ([ "@@ -5,2 +5,3 @@"; " ctx"; "+new1"; " ctx" ]
                   ++ "@@ -20,1 +21,3 @@" :: [" ctx"; "+new2"; "+new3"]))
  = parse_patch (join_newline [ "@@ -5,2 +5,3 @@"; " ctx"; "+new1"; " ctx" ])
    ++ parse_patch
         (join_newline ("@@ -20,1 +21,3 @@" :: [" ctx"; "+new2"; "+new3"])).
Proof.
  apply parse_patch_hunks_independent;
    [repeat (constructor; try reflexivity) ..| reflexivity].
Defined.

End ParseMore.

(** ** More on the validator and the filter *)

Section ValidateMore.
Import PyStr diff_parser PatchLines.

Lemma numbering_seqZ (ds : list DiffLine) (n : Z) :
  (∀ (i : nat) d, ds !! i = Some d → line_number d = n + Z.of_nat i) →
  line_number <$> ds = seqZ n (Z.of_nat (length ds)).
Proof.
  intros Hnum. apply list_eq. intros i. rewrite list_lookup_fmap.
  destruct (ds !! i) as [d|] eqn:Hd; cbn.
  - symmetry. apply lookup_seqZ. split; [by apply Hnum |].
    apply lookup_lt_Some in Hd. lia.
  - symmetry. apply lookup_seqZ_ge. apply lookup_ge_None in Hd. lia.
Qed.

(** the new-file line numbers of a patch of one hunk *)
Lemma single_hunk_line_numbers header body n :
  Forall Spec.one_line (header :: body) →
  Spec.hunk_new_start header = Some n →
  Forall (λ l, Spec.hunk_new_start l = None) body →
  line_number <$> parse_patch (join_newline (header :: body))
  = seqZ n (Z.of_nat (length (List.filter Spec.emits body))).
Proof.
  intros Hone Hn Hfree. rewrite parse_patch_join by done.
  cbn [fold_left]. rewrite (parse_step_header _ _ _ _ Hn).
  destruct (parse_hunk_body body n Hfree) as (ds & -> & <- & Hnum).
  by apply numbering_seqZ.
Qed.

(** X4 — The validator on a patch of one hunk.  For a patch made of one
    hunk header [+n] and [k] addition or context lines, the lines open to
    comments are [n], ..., [n+k-1], and [validate_comment_lines] keeps
    exactly the comments on that file whose line number is in this range. *)
Theorem validate_single_hunk
    (comments : list ai_reviewer.ReviewComment) (path header : string)
    (body : list string) (n : Z) :
  Forall Spec.one_line (header :: body) →
  Spec.hunk_new_start header = Some n →
  Forall (λ l, Spec.hunk_new_start l = None) body →
  let patch := join_newline (header :: body) in
  let k := Z.of_nat (length (List.filter Spec.emits body)) in
  get_valid_comment_lines patch = list_to_set (seqZ n k)
  ∧ review.validate_comment_lines comments {[ path := patch ]}
    = filter (λ c, ai_reviewer.file_path c = path
                   ∧ n ≤ ai_reviewer.line_number c < n + k) comments.
Proof.
  intros Hone Hn Hfree patch k.
  pose proof (single_hunk_line_numbers header body n Hone Hn Hfree) as Hnums.
  fold patch k in Hnums. split.
  - unfold get_valid_comment_lines. by rewrite Hnums.
  - unfold review.validate_comment_lines. rewrite validate_fold. cbn [app].
    apply list_filter_iff. intros c. unfold Spec.comment_on_diff_line. split.
    + intros (p & Hp & Hin). apply lookup_singleton_Some in Hp as [<- <-].
      split; [done |]. rewrite Hnums in Hin. by apply elem_of_seqZ in Hin.
    + intros [<- Hrange]. exists patch. split; [apply lookup_singleton_eq |].
      rewrite Hnums. by apply elem_of_seqZ.
Qed.

Lemma validate_single_hunk_witness :
  let comments :=
    [ai_reviewer.mkReviewComment "src/app.py" 2 ai_reviewer.error ai_reviewer.bug "Valid";
     ai_reviewer.mkReviewComment "src/app.py" 999 ai_reviewer.info
       ai_reviewer.readability "Hallucinated"] in
  let body := [" line1"; "+added_line2"; "+added_line3"; " line4"; " line5"] in
  let patch := join_newline ("@@ -1,3 +1,5 @@" :: body) in
  let k := Z.of_nat (length (List.filter Spec.emits body)) in
  get_valid_comment_lines patch = list_to_set (seqZ 1 k)
  ∧ review.validate_comment_lines comments {[ "src/app.py" := patch ]}
    = filter (λ c, ai_reviewer.file_path c = "src/app.py"
                   ∧ 1 ≤ ai_reviewer.line_number c < 1 + k) comments.
Proof.
  intros comments body.
  apply (validate_single_hunk comments "src/app.py" "@@ -1,3 +1,5 @@" body 1).
  - repeat (constructor; try reflexivity).
  - reflexivity.
  - repeat (constructor; try reflexivity).
Defined.

(** X5 — The validator composes.  Validating a concatenation is validating
    its parts; validating twice is validating once; against an empty mapping
    nothing is kept; and a kept comment never has a negative line number. *)
Theorem validate_comment_lines_compose
    (comments1 comments2 : list ai_reviewer.ReviewComment)
    (file_patches : gmap string string) :
  review.validate_comment_lines (comments1 ++ comments2) file_patches
  = review.validate_comment_lines comments1 file_patches
    ++ review.validate_comment_lines comments2 file_patches
  ∧ review.validate_comment_lines
      (review.validate_comment_lines comments1 file_patches) file_patches
    = review.validate_comment_lines comments1 file_patches
  ∧ review.validate_comment_lines comments1 ∅ = []
  ∧ (length (review.validate_comment_lines comments1 file_patches)
     ≤ length comments1)%nat
  ∧ Forall (λ c, 0 ≤ ai_reviewer.line_number c)
           (review.validate_comment_lines comments1 file_patches).
Proof.
  unfold review.validate_comment_lines. rewrite !validate_fold. cbn [app].
  split; [apply filter_app |]. split; [| split; [| split]].
  - rewrite list_filter_filter. apply list_filter_iff. intros c. tauto.
  - induction comments1 as [|c cs IH]; [done |].
    rewrite filter_cons_False; [done |].
    intros (p & Hp & _). by rewrite lookup_empty in Hp.
  - apply length_filter.
  - apply Forall_forall. intros c Hc.
    apply list_elem_of_filter in Hc as [(p & _ & Hin) _].
    apply list_elem_of_fmap in Hin as (d & -> & Hd).
    rewrite parse_patch_fold in Hd.
    destruct (parse_fold_lower_bound 0 (split_newline p) 0) as [Hall _].
    + done.
    + intros l m _. apply hunk_new_start_nonneg.
    + rewrite Forall_forall in Hall. by apply Hall.
Qed.

Lemma list_filter_idem {A} (f : A → bool) l :
  List.filter f (List.filter f l) = List.filter f l.
Proof.
  induction l as [|x l IH]; [done |]. cbn [List.filter].
  destruct (f x) eqn:Hx; [| done]. cbn [List.filter]. by rewrite Hx, IH.
Qed.

(** X6 — The reviewable-file filter composes.  Filtering a concatenation is
    filtering its parts; filtering twice is filtering once; and every file
    that is kept has a patch, so that reading its ["patch"] gives the patch
    itself. *)
Theorem filter_reviewable_files_compose (files1 files2 : list ChangedFile) :
  filter_reviewable_files (files1 ++ files2)
  = filter_reviewable_files files1 ++ filter_reviewable_files files2
  ∧ filter_reviewable_files (filter_reviewable_files files1)
    = filter_reviewable_files files1
  ∧ Forall (λ f, patch f = Some (review.patch_text f))
           (filter_reviewable_files files1).
Proof.
  rewrite !filter_reviewable_files_keeps. split; [apply List.filter_app |].
  split; [apply list_filter_idem |].
  apply Forall_forall. intros f Hf.
  apply list_elem_of_In, filter_In in Hf as [_ Hk].
  destruct (keeps_extension f Hk) as (_ & _ & _ & [p Hp] & _).
  unfold review.patch_text. by rewrite Hp.
Qed.

End ValidateMore.

(** ** More on the orchestrator *)

Section ReviewMore.
Import PyStr Effects ai_reviewer review.

(** X7 — The comment body tells the finding.  Two comments with the same
    formatted body have the same severity, the same category and the same
    message: [format_comment_body] loses nothing of the three. *)
Theorem format_comment_body_injective (c1 c2 : ReviewComment) :
  format_comment_body c1 = format_comment_body c2 →
  severity c1 = severity c2 ∧ category c1 = category c2
  ∧ comment c1 = comment c2.
Proof.
  destruct c1 as [p1 l1 s1 k1 m1], c2 as [p2 l2 s2 k2 m2].
  unfold format_comment_body. cbn [severity category comment].
  destruct s1, s2, k1, k2; cbn; intros H; by simplify_eq.
Qed.

Lemma format_comment_body_injective_witness :
  severity (mkReviewComment "a.py" 1 warning performance "O(n^2) loop detected")
  = severity (mkReviewComment "b.py" 7 warning performance "O(n^2) loop detected")
  ∧ category (mkReviewComment "a.py" 1 warning performance "O(n^2) loop detected")
    = category (mkReviewComment "b.py" 7 warning performance "O(n^2) loop detected")
  ∧ comment (mkReviewComment "a.py" 1 warning performance "O(n^2) loop detected")
    = comment (mkReviewComment "b.py" 7 warning performance "O(n^2) loop detected").
Proof.
  apply format_comment_body_injective. reflexivity.
Defined.

(** X8 — The summary does not depend on the order of the comments. *)
Theorem build_summary_permutation (comments1 comments2 : list ReviewComment) :
  comments1 ≡ₚ comments2 → build_summary comments1 = build_summary comments2.
Proof.
  intros Hperm. unfold build_summary.
  change "error" with (Severity_str error).
  change "warning" with (Severity_str warning).
  change "info" with (Severity_str info).
  rewrite !count_severity_spec. unfold Spec.count_with_severity.
  by rewrite Hperm.
Qed.

Lemma build_summary_permutation_witness :
  build_summary Spec.two_errors_one_warning
  = build_summary (reverse Spec.two_errors_one_warning).
Proof.
  apply build_summary_permutation. symmetry. apply reverse_Permutation.
Defined.

End ReviewMore.

Section MainMore.
Import PyStr Effects ai_reviewer review Runs.




(** in mock mode a review is the canned comment, and nothing happens *)
Lemma review_files_mock backend self files pr_title pr_description t :
  _is_mock self = true →
  review_files backend self files pr_title pr_description t
  = (inr (map (λ f, mkReviewComment f.1 1 info readability
                      "Mock review comment for testing.") files), t).
Proof.
  intros Hmock. unfold review_files.
  change (map _ files) with ([] ++ map (λ f : string * string,
     mkReviewComment f.1 1 info readability "Mock review comment for testing.")
     files).
  generalize (@nil ReviewComment). revert t.
  induction files as [|[file_path patch] files IH]; intros t acc;
    cbn [review_files_loop map].
  { by rewrite app_nil_r. }
  unfold bind, review_diff. rewrite Hmock. unfold ret.
  rewrite IH. unfold _mock_response. cbn [comments fst].
  by rewrite <- app_assoc.
Qed.

Lemma count_with_severity_other (s : Severity) comments :
  Forall (λ c, severity c = info) comments → s ≠ info →
  Spec.count_with_severity s comments = 0.
Proof.
  intros Hall Hs. unfold Spec.count_with_severity.
  induction Hall as [|c cs Hc Hall IH]; [done |].
  rewrite filter_cons_False by congruence. exact IH.
Qed.

Lemma build_summary_info_only comments :
  Forall (λ c, severity c = info) comments →
  build_summary comments = info_only_summary (length comments).
Proof.
  intros Hall. unfold build_summary, info_only_summary.
  change "error" with (Severity_str error).
  change "warning" with (Severity_str warning).
  change "info" with (Severity_str info).
  rewrite !count_severity_spec.
  rewrite !(count_with_severity_other _ _ Hall) by done.
  pose proof (severities_partition comments) as Hsum.
  rewrite !(count_with_severity_other _ _ Hall) in Hsum by done.
  replace (Spec.count_with_severity info comments)
    with (Z.of_nat (length comments)) by lia.
  done.
Qed.

(** X10 — Mock mode.  With the key "mock" or no key at all, a run on a pull
    request that is no fork and has a reviewable file, on a platform that
    answers the reading calls, never calls the model: it posts one review.
    Every comment of the review is the canned one, on line 1, there is at
    most one per reviewable file, and the summary counts them all as info.
    The run returns when the review is accepted; when the posting raises an
    [Exception] the note of this exception is posted and the run ends as
    that post ends; what the posting raises that is no [Exception] is
    passed on. *)
Theorem main_mock_mode
    (backend : Backend) (platform : Platform) (OPENAI_API_KEY : string)
    (context : PlatformContext) (project_text : string)
    (raw_files : list diff_parser.ChangedFile) (t : trace) :
  OPENAI_API_KEY = "mock" ∨ OPENAI_API_KEY = "" →
  answers platform context project_text raw_files →
  reviewable_files raw_files ≠ [] →
  ∃ posted_comments,
    let review :=
      PostReviewComments posted_comments
        (info_only_summary (length posted_comments)) in
    main backend platform OPENAI_API_KEY t
    = match post_raises platform t review with
      | None => (inr tt, t ++ [review])
      | Some e =>
          if is_Exception e then
            (posted (post_error_comment_raises platform (t ++ [review])
                       (error_note e)),
             t ++ [review; PostErrorComment (error_note e)])
          else (inl e, t ++ [review])
      end
    ∧ Forall mock_platform_comment posted_comments
    ∧ (length posted_comments ≤ length (reviewable_files raw_files))%nat.
Proof.
  intros Hkey Hanswers Hne.
  rewrite (main_review_phase _ _ _ context project_text raw_files t) by done.
  unfold try_except, review_phase, bind.
  rewrite review_files_mock by (by destruct Hkey as [-> | ->]).
  set (mock := map _ (map _ (reviewable_files raw_files))).
  set (file_patches := fold_left _ _ _).
  assert (Hmock : Forall (λ c, severity c = info ∧ category c = readability
                              ∧ comment c = "Mock review comment for testing."
                              ∧ line_number c = 1) mock).
  { subst mock. rewrite Forall_forall. intros c Hc.
    by apply list_elem_of_fmap in Hc as (f & -> & _). }
  assert (Hlen : length mock = length (reviewable_files raw_files)).
  { subst mock. by rewrite !length_map. }
  unfold validate_comment_lines. rewrite validate_fold. cbn [app].
  set (valid := filter _ mock).
  assert (Hvalid : Forall (λ c, severity c = info ∧ category c = readability
                              ∧ comment c = "Mock review comment for testing."
                              ∧ line_number c = 1) valid).
  { rewrite Forall_forall in Hmock. rewrite Forall_forall. intros c Hc.
    apply Hmock. by apply list_elem_of_filter in Hc as [_ Hc]. }
  rewrite build_summary_info_only
    by (eapply Forall_impl; [exact Hvalid |]; by intros c (? & _)).
  set (posted_comments := map _ valid).
  assert (length posted_comments = length valid) as Hlen'
    by (subst posted_comments; by rewrite length_map).
  rewrite <- Hlen'.
  exists posted_comments. cbn zeta. split; [| split].
  - unfold post_review_comments. cbn [post_raises].
    destruct (post_review_comments_raises platform t posted_comments
                (info_only_summary (length posted_comments))) as [e|];
      cbn [posted]; [| done].
    unfold review_handler. destruct (is_Exception e); [| done].
    unfold post_error_comment. fold (error_note e).
    by rewrite <- app_assoc.
  - rewrite Forall_forall in Hvalid. rewrite Forall_forall. intros c Hc.
    apply list_elem_of_In, in_map_iff in Hc as (rc & <- & Hrc).
    apply list_elem_of_In, Hvalid in Hrc as (Hs & Hk & Hm & Hl).
    unfold mock_platform_comment, format_comment_body. cbn [line body].
    by rewrite Hs, Hk, Hm, Hl.
  - rewrite Hlen', <- Hlen. apply length_filter.
Qed.

Lemma main_mock_mode_witness :
  ∃ posted_comments,
    let review :=
      PostReviewComments posted_comments
        (info_only_summary (length posted_comments)) in
    main Spec.auth_failing_backend Spec.refusing_platform "mock" []
    = match post_raises Spec.refusing_platform [] review with
      | None => (inr tt, [] ++ [review])
      | Some e =>
          if is_Exception e then
            (posted (post_error_comment_raises Spec.refusing_platform
                       ([] ++ [review]) (error_note e)),
             [] ++ [review; PostErrorComment (error_note e)])
          else (inl e, [] ++ [review])
      end
    ∧ Forall mock_platform_comment posted_comments
    ∧ (length posted_comments
       ≤ length (reviewable_files
                   [diff_parser.mkChangedFile "src/app.py"
                      (Some Spec.SAMPLE_PATCH) 2 0]))%nat.
Proof.
  apply (main_mock_mode Spec.auth_failing_backend Spec.refusing_platform "mock"
           (mkPlatformContext 1 "Test" "Test" "test123" "owner/repo") ""
           [diff_parser.mkChangedFile "src/app.py" (Some Spec.SAMPLE_PATCH) 2 0]
           []).
  - by left.
  - repeat split; reflexivity.
  - by vm_compute.
Defined.

End MainMore.

(** ** More on the review backend adapter *)

Section AdapterMore.
Import PyStr Effects ai_reviewer Calls.
Variable backend : Backend.

(** an attempt is one model call, followed by a sleep exactly when it was
    rate limited and is not the last *)
Lemma attempt_body_events system_prompt user_prompt attempt t :
  ∃ r,
    attempt_body backend system_prompt user_prompt attempt t
    = (r, t ++ ModelCall system_prompt user_prompt
             :: match r with
                | inr None =>
                    if (attempt <? MAX_RETRIES - 1)%nat
                    then [Sleep (2 ^ (Z.of_nat attempt + 1))] else []
                | _ => []
                end).
Proof.
  assert (Hhandler : ∀ e,
    ∃ r, match exn_cls e with
         | AuthenticationError => raise e
         | BadRequestError =>
             ret (Some (mkReviewResponse []
                          "Error: Content was filtered by the API."))
         | RateLimitError =>
             if (attempt <? MAX_RETRIES - 1)%nat then
               bind (time_sleep (2 ^ (Z.of_nat attempt + 1))) (λ _, ret None)
             else ret None
         | _ => raise e
         end (t ++ [ModelCall system_prompt user_prompt])
         = (r, t ++ ModelCall system_prompt user_prompt
                  :: match r with
                     | inr None =>
                         if (attempt <? MAX_RETRIES - 1)%nat
                         then [Sleep (2 ^ (Z.of_nat attempt + 1))] else []
                     | _ => []
                     end)).
  { intros e. destruct (exn_cls e);
      [by exists (inl e) | by eexists (inr (Some _)) | | by exists (inl e) ..].
    destruct (attempt <? MAX_RETRIES - 1)%nat eqn:Hlast.
    + exists (inr None). unfold bind, time_sleep, emit, ret.
      by rewrite <- app_assoc.
    + by exists (inr None). }
  unfold attempt_body, try_except, bind, chat_completions_create.
  destruct (create backend (calls_made t) system_prompt user_prompt)
    as [e|choice]; [apply Hhandler |].
  destruct (nonempty (default "" (refusal choice)));
    [by eexists (inr (Some _)) |].
  destruct (String.eqb (finish_reason choice) "length");
    [by eexists (inr (Some _)) |].
  unfold lift.
  match goal with
  | |- context [decode backend ?raw] =>
      destruct (decode backend raw) as [e|parsed]
  end; [apply Hhandler | by exists (inr (Some parsed))].
Qed.

(** X11 — The retry window is bounded, whatever the backend does.  One
    [_call_openai] makes at least one and at most [MAX_RETRIES] = 3 model
    calls, all with the prompts it was given; it sleeps once between two
    calls and never after the last, the waits being 2 then 4 seconds, so
    that it never sleeps more than 6 seconds in all; and it posts nothing
    to the platform. *)
Theorem call_openai_bounded (system_prompt user_prompt : string) (t : trace) :
  ∃ new,
    (_call_openai backend system_prompt user_prompt t).2 = t ++ new
    ∧ calls_made new = S (length (sleeps new))
    ∧ sleeps new `prefix_of` [2; 4]
    ∧ (1 ≤ calls_made new ≤ MAX_RETRIES)%nat
    ∧ foldr Z.add 0 (sleeps new) ≤ 6
    ∧ calls_with system_prompt user_prompt new
    ∧ platform_posts new = [].
Proof.
  unfold _call_openai. cbn [seq MAX_RETRIES attempts_loop]. unfold bind at 1.
  destruct (attempt_body_events system_prompt user_prompt 0 t) as [r0 H0].
  rewrite H0. destruct r0 as [e|[response|]].
  1, 2: eexists; split; [reflexivity |]; cbn;
        repeat split; try lia; try (by eexists); by repeat constructor.
  cbn [Nat.ltb Nat.leb Nat.sub MAX_RETRIES]. unfold bind at 1.
  destruct (attempt_body_events system_prompt user_prompt 1
              (t ++ [ModelCall system_prompt user_prompt;
                     Sleep (2 ^ (Z.of_nat 0 + 1))])) as [r1 H1].
  rewrite H1. destruct r1 as [e|[response|]].
  1, 2: eexists; split; [cbn [fst snd]; rewrite <- app_assoc; reflexivity |];
        cbn; repeat split; try lia; try (by eexists); by repeat constructor.
  cbn [Nat.ltb Nat.leb Nat.sub MAX_RETRIES]. unfold bind at 1.
  destruct (attempt_body_events system_prompt user_prompt 2
              ((t ++ [ModelCall system_prompt user_prompt;
                      Sleep (2 ^ (Z.of_nat 0 + 1))])
               ++ [ModelCall system_prompt user_prompt;
                   Sleep (2 ^ (Z.of_nat 1 + 1))])) as [r2 H2].
  rewrite H2. destruct r2 as [e|[response|]].
  all: eexists; split; [cbn [fst snd]; rewrite <- !app_assoc; reflexivity |];
       cbn; repeat split; try lia; try (by eexists); by repeat constructor.
Qed.

(** the [try] block of an attempt, run on the result of its model call *)
Lemma attempt_body_first_try system_prompt user_prompt attempt t :
  attempt_body backend system_prompt user_prompt attempt t
  = match first_try backend t system_prompt user_prompt with
    | inr response =>
        (inr (Some response), t ++ [ModelCall system_prompt user_prompt])
    | inl e =>
        match exn_cls e with
        | AuthenticationError => raise e
        | BadRequestError =>
            ret (Some (mkReviewResponse []
                         "Error: Content was filtered by the API."))
        | RateLimitError =>
            if (attempt <? MAX_RETRIES - 1)%nat then
              bind (time_sleep (2 ^ (Z.of_nat attempt + 1))) (λ _, ret None)
            else ret None
        | _ => raise e
        end (t ++ [ModelCall system_prompt user_prompt])
    end.
Proof.
  unfold attempt_body, try_except, bind at 1, chat_completions_create, first_try.
  destruct (create backend (calls_made t) system_prompt user_prompt)
    as [e|choice]; [done |].
  unfold answer_of_choice.
  destruct (nonempty (default "" (refusal choice))); [done |].
  destruct (String.eqb (finish_reason choice) "length"); [done |].
  unfold lift, bind.
  replace (match message_content choice with
           | Some c => if nonempty c then c else ""
           | None => ""
           end) with (default "" (message_content choice))
    by (by destruct (message_content choice) as [[|? ?]|]).
  by destruct (decode backend _).
Qed.

(** X12 — Only a rate limit is retried.  When the first attempt meets no
    rate-limit error, [_call_openai] makes this one call and does not
    sleep.  It returns a response without comments for a refusal, a
    truncated answer and a content-filter rejection, the decoded payload
    for a complete answer, and raises what the call or the decoding
    raised otherwise. *)
Theorem call_openai_not_retried (system_prompt user_prompt : string) (t : trace) :
  (∀ e, first_try backend t system_prompt user_prompt = inl e →
        exn_cls e ≠ RateLimitError) →
  _call_openai backend system_prompt user_prompt t
  = (match first_try backend t system_prompt user_prompt with
     | inl e => answer_of_failure e
     | inr response => inr response
     end,
     t ++ [ModelCall system_prompt user_prompt]).
Proof.
  intros Hno. unfold _call_openai. cbn [seq MAX_RETRIES attempts_loop].
  unfold bind at 1. rewrite attempt_body_first_try.
  destruct (first_try backend t system_prompt user_prompt) as [e|response];
    [| done].
  specialize (Hno e eq_refl). unfold answer_of_failure.
  by destruct (exn_cls e).
Qed.

Lemma calls_made_limited system_prompt user_prompt t k :
  calls_made (t ++ limited_attempts system_prompt user_prompt k)
  = (calls_made t + k)%nat.
Proof.
  rewrite calls_made_app. f_equal. unfold limited_attempts.
  generalize 0%nat. induction k as [|k IH]; intros n; [done |].
  cbn [seq flat_map]. rewrite calls_made_app, IH. done.
Qed.

(** X13 — A rate limit that goes away.  When the first [k] calls are rate
    limited, [k] below [MAX_RETRIES], and the next call answers with a
    complete payload, [_call_openai] returns the decoded payload after [k]
    sleeps of 2, 4, ... seconds and [k+1] calls. *)
Theorem call_openai_recovers
    (system_prompt user_prompt : string) (t : trace) (k : nat)
    (choice : Choice) (response : ReviewResponse) :
  (k < MAX_RETRIES)%nat →
  (∀ i, (i < k)%nat →
        ∃ e, create backend (calls_made t + i) system_prompt user_prompt = inl e
             ∧ exn_cls e = RateLimitError) →
  create backend (calls_made t + k) system_prompt user_prompt = inr choice →
  answer_of_choice backend choice = inr response →
  _call_openai backend system_prompt user_prompt t
  = (inr response,
     t ++ limited_attempts system_prompt user_prompt k
       ++ [ModelCall system_prompt user_prompt]).
Proof.
  intros Hk Hlimited Hcall Hanswer.
  assert (Hlast : ∀ t',
    calls_made t' = (calls_made t + k)%nat →
    ∀ attempts attempt,
      attempts_loop backend system_prompt user_prompt (attempt :: attempts) t'
      = (inr response, t' ++ [ModelCall system_prompt user_prompt])).
  { intros t' Ht' attempts attempt. cbn [attempts_loop]. unfold bind at 1.
    rewrite attempt_body_first_try. unfold first_try.
    by rewrite Ht', Hcall, Hanswer. }
  assert (Hstep : ∀ t' i attempts,
    (i < k)%nat → (i < MAX_RETRIES - 1)%nat →
    calls_made t' = (calls_made t + i)%nat →
    attempts_loop backend system_prompt user_prompt (i :: attempts) t'
    = attempts_loop backend system_prompt user_prompt attempts
        (t' ++ [ModelCall system_prompt user_prompt;
                Sleep (2 ^ (Z.of_nat i + 1))])).
  { intros t' i attempts Hi Hi' Ht'. cbn [attempts_loop]. unfold bind at 1.
    destruct (Hlimited i Hi) as (e & He & Hcls). rewrite <- Ht' in He.
    rewrite (attempt_body_rate_limited backend _ _ i t' e He Hcls).
    apply Nat.ltb_lt in Hi'. by rewrite Hi'. }
  unfold _call_openai. cbn [seq MAX_RETRIES].
  unfold MAX_RETRIES in Hk.
  destruct k as [|[|[|k]]]; [| | | lia].
  - unfold limited_attempts. cbn [seq flat_map app].
    apply Hlast. lia.
  - rewrite (Hstep t 0%nat) by (done || cbn; lia).
    rewrite Hlast by (rewrite calls_made_app; cbn; lia).
    unfold limited_attempts. cbn [seq flat_map app]. by rewrite <- app_assoc.
  - rewrite (Hstep t 0%nat) by (done || cbn; lia).
    rewrite (Hstep _ 1%nat) by (cbn; lia || (rewrite calls_made_app; cbn; lia)).
    rewrite Hlast by (rewrite !calls_made_app; cbn; lia).
    unfold limited_attempts. cbn [seq flat_map app]. by rewrite <- !app_assoc.
Qed.

Lemma review_files_loop_acc self files pr_title pr_description acc t :
  review_files_loop backend self files pr_title pr_description acc t
  = match review_files_loop backend self files pr_title pr_description [] t with
    | (inl e, t') => (inl e, t')
    | (inr found, t') => (inr (acc ++ found), t')
    end.
Proof.
  revert acc t. induction files as [|[file_path patch] files IH];
    intros acc t; cbn [review_files_loop].
  { unfold ret. by rewrite app_nil_r. }
  unfold bind.
  destruct (review_diff backend self file_path patch pr_title pr_description t)
    as [[e|response] t1]; [done |].
  rewrite (IH (acc ++ comments response)), (IH ([] ++ comments response)).
  destruct (review_files_loop backend self files pr_title pr_description [] t1)
    as [[e|found] t2]; [done |].
  by rewrite app_assoc.
Qed.

(** X14 — Reviewing the files one after the other.  Reviewing a list of
    files is reviewing a first part and then the rest, the comments of the
    first part before those of the rest; when a review of the first part
    raises, the exception is raised at once and the rest is not
    reviewed. *)
Theorem review_files_app
    (self : AIReviewer) (files1 files2 : list (string * string))
    (pr_title pr_description : string) (t : trace) :
  review_files backend self (files1 ++ files2) pr_title pr_description t
  = match review_files backend self files1 pr_title pr_description t with
    | (inl e, t1) => (inl e, t1)
    | (inr found1, t1) =>
        match review_files backend self files2 pr_title pr_description t1 with
        | (inl e, t2) => (inl e, t2)
        | (inr found2, t2) => (inr (found1 ++ found2), t2)
        end
    end.
Proof.
  unfold review_files. generalize (@nil ReviewComment) at 1 2. revert t.
  induction files1 as [|[file_path patch] files1 IH]; intros t acc.
  - cbn [app review_files_loop]. unfold ret. apply review_files_loop_acc.
  - cbn [app review_files_loop]. unfold bind.
    destruct (review_diff backend self file_path patch pr_title pr_description t)
      as [[e|response] t1]; [done |].
    apply IH.
Qed.

End AdapterMore.

Section AdapterMoreScenarios.
Import PyStr Effects ai_reviewer Calls.

Lemma call_openai_not_retried_witness :
  _call_openai Spec.auth_failing_backend "system" "user" []
  = (match first_try Spec.auth_failing_backend [] "system" "user" with
     | inl e => answer_of_failure e
     | inr response => inr response
     end,
     [] ++ [ModelCall "system" "user"]).
Proof.
  apply (call_openai_not_retried Spec.auth_failing_backend).
  intros e. cbn. by intros [= <-].
Defined.

End AdapterMoreScenarios.

Section AdapterRecovery.
Import PyStr Effects ai_reviewer Calls Texts.

Lemma call_openai_recovers_witness :
  _call_openai recovering_backend "system" "user" []
  = (inr (mkReviewResponse [] "Looks good"),
     [] ++ limited_attempts "system" "user" 1 ++ [ModelCall "system" "user"]).
Proof.
  apply (call_openai_recovers recovering_backend "system" "user" [] 1
           (mkChoice None "stop" (Some "{}"))).
  - unfold MAX_RETRIES. lia.
  - intros i Hi. assert (i = 0%nat) as -> by lia.
    exists (mkExn RateLimitError "Rate limit exceeded"). split; reflexivity.
  - reflexivity.
  - reflexivity.
Defined.

End AdapterRecovery.

(** ** More on the sanitizer *)

Section SanitizeMore.
Import PyStr PyRe ai_reviewer Texts.

Lemma sub_length match_at prev skip s :
  contracting match_at →
  (String.length (sub match_at prev skip s) + Nat.min skip (String.length s)
   ≤ String.length s)%nat.
Proof.
  intros Hc. revert prev skip.
  induction s as [|c s IH]; intros prev skip; [cbn; lia |].
  cbn [sub String.length]. destruct skip as [|k].
  - destruct (match_at prev (String c s)) as [[repl len]|] eqn:Hm.
    + apply Hc in Hm. cbn [String.length] in Hm.
      rewrite length_append. specialize (IH (Some c) (len - 1)%nat). lia.
    + cbn [String.length]. specialize (IH (Some c) 0%nat). lia.
  - specialize (IH (Some c) k). lia.
Qed.

Lemma re_sub_length match_at s :
  contracting match_at →
  (String.length (re_sub match_at s) ≤ String.length s)%nat.
Proof.
  intros Hc. pose proof (sub_length match_at None 0 s Hc). unfold re_sub. lia.
Qed.

Lemma span_until_Some x s before after :
  span_until x s = Some (before, after) → s = before +:+ String x after.
Proof.
  revert before. induction s as [|c s IH]; intros before; [done |].
  cbn [span_until]. destruct (Ascii.eqb_spec c x) as [->|_].
  { by intros [= <- <-]. }
  destruct (span_until x s) as [[b a]|]; [| done]. cbn [mbind option_bind].
  intros [= <- <-]. by rewrite (IH b eq_refl).
Qed.

Lemma span_lazy_star_Some s g r :
  span_lazy_star s = Some (g, r) → s = g +:+ r.
Proof.
  revert g. induction s as [|c s IH]; intros g; [done |].
  cbn [span_lazy_star]. destruct (Ascii.eqb c "*"); [by intros [= <- <-] |].
  destruct (Ascii.eqb c LF); [done |].
  destruct (span_lazy_star s) as [[g' r']|]; [| done]. cbn [mbind option_bind].
  intros [= <- <-]. by rewrite (IH g' eq_refl).
Qed.

Lemma count_run_le_length c n s : (count_run c n s ≤ String.length s)%nat.
Proof.
  revert s. induction n as [|n IH]; intros [|c' s]; cbn; try lia.
  destruct (Ascii.eqb c' c); [| lia]. specialize (IH s). lia.
Qed.

Lemma count_run_le c n s : (count_run c n s ≤ n)%nat.
Proof.
  revert s. induction n as [|n IH]; intros [|c' s]; cbn; try lia.
  destruct (Ascii.eqb c' c); [| lia]. specialize (IH s). lia.
Qed.

Lemma count_space_le_length s : (count_space s ≤ String.length s)%nat.
Proof.
  induction s as [|c s IH]; cbn; [lia |]. destruct (is_space c); lia.
Qed.

Lemma length_drop_str n s :
  String.length (drop n s) = (String.length s - n)%nat.
Proof.
  revert s. induction n as [|n IH]; intros [|c s]; cbn; try lia. apply IH.
Qed.

Lemma match_link_contracting : contracting (λ _, match_link).
Proof.
  intros _ s repl len. unfold match_link.
  destruct (literal "[" s) as [r1|] eqn:H1; [| done]. cbn [mbind option_bind].
  destruct (span_until "]" r1) as [[label r2]|] eqn:H2; [| done].
  cbn [mbind option_bind].
  destruct (literal "(" r2) as [r3|] eqn:H3; [| done]. cbn [mbind option_bind].
  destruct (span_until ")" r3) as [[url r4]|] eqn:H4; [| done].
  cbn [mbind option_bind]. intros [= <- <-].
  apply literal_Some in H1 as ->. apply span_until_Some in H2 as ->.
  apply literal_Some in H3 as ->. apply span_until_Some in H4 as ->.
  repeat (rewrite ?length_append; cbn [String.length]). lia.
Qed.

Lemma match_image_contracting : contracting (λ _, match_image).
Proof.
  intros prev s repl len. unfold match_image.
  destruct (literal "!" s) as [r|] eqn:H1; [| done]. cbn [mbind option_bind].
  destruct (match_link r) as [[label n]|] eqn:H2; [| done].
  cbn [mbind option_bind]. intros [= <- <-].
  apply literal_Some in H1 as ->.
  apply (match_link_contracting None) in H2. cbn [String.append String.length].
  lia.
Qed.

Lemma match_emphasis_contracting : contracting (λ _, match_emphasis).
Proof.
  intros _ s repl len. unfold match_emphasis.
  pose proof (count_run_le_length "*" 3 s) as Hk. revert Hk.
  induction (count_run "*" 3 s) as [|k IH]; [done |].
  intros Hk. cbn [emphasis_from]. unfold emphasis_try at 1.
  destruct (span_lazy_star (drop (S k) s)) as [[g r]|] eqn:Hs;
    cbn [mbind option_bind]; [| apply IH; lia].
  apply span_lazy_star_Some in Hs. apply (f_equal String.length) in Hs.
  rewrite length_drop_str, length_append in Hs.
  pose proof (count_run_le_length "*" 3 r) as Hc. revert Hc.
  generalize (count_run "*" 3 r). intros closing Hc [= <- <-]. lia.
Qed.

Lemma match_heading_contracting : contracting match_heading.
Proof.
  intros prev s repl len. unfold match_heading.
  pose proof (count_run_le_length "#" 6 s) as Hh.
  set (h := count_run "#" 6 s) in *.
  pose proof (count_space_le_length (drop h s)) as Hw.
  set (w := count_space (drop h s)) in *. rewrite length_drop_str in Hw.
  destruct (Nat.leb_spec 1 h) as [H1|_]; [| by rewrite andb_false_r].
  destruct (_ && _ && _); [| done]. intros [= <- <-]. cbn [String.length]. lia.
Qed.

Lemma match_backticks_contracting : contracting (λ _, match_backticks).
Proof.
  intros _ s repl len. unfold match_backticks.
  pose proof (count_run_le_length "`" 3 s) as Hn.
  set (n := count_run "`" 3 s) in *.
  destruct (Nat.leb_spec 1 n); [| done]. intros [= <- <-].
  cbn [String.length]. lia.
Qed.

Lemma strip_markdown_length s :
  (String.length (Spec.strip_markdown s) ≤ String.length s)%nat.
Proof.
  unfold Spec.strip_markdown, strip_backticks, strip_headings, strip_links,
    strip_emphasis, strip_images.
  pose proof (re_sub_length _ s match_image_contracting).
  pose proof (re_sub_length _ (re_sub (λ _, match_image) s)
                match_emphasis_contracting).
  pose proof (re_sub_length _
                (re_sub (λ _, match_emphasis) (re_sub (λ _, match_image) s))
                match_link_contracting).
  pose proof (re_sub_length _
                (re_sub (λ _, match_link)
                   (re_sub (λ _, match_emphasis) (re_sub (λ _, match_image) s)))
                match_heading_contracting).
  pose proof (re_sub_length _
                (re_sub match_heading
                   (re_sub (λ _, match_link)
                      (re_sub (λ _, match_emphasis)
                         (re_sub (λ _, match_image) s))))
                match_backticks_contracting).
  lia.
Qed.

Lemma take_length_le n s : (String.length (take n s) ≤ String.length s)%nat.
Proof.
  revert s. induction n as [|n IH]; intros [|c s]; cbn; try lia.
  specialize (IH s). lia.
Qed.

(** X15 — Sanitizing never adds to a text, and leaves plain text alone.
    The result of [_sanitize_input] is never longer than its input; a text
    without any of the characters of the markdown syntax comes back
    unchanged, truncated to 500 characters. *)
Theorem sanitize_input_shrinks (text : string) :
  (String.length (_sanitize_input text) ≤ String.length text)%nat
  ∧ (Spec.markdown_free text = true →
     _sanitize_input text = take MAX_INPUT_LENGTH text)
  ∧ (Spec.markdown_free text = true →
     (String.length text ≤ MAX_INPUT_LENGTH)%nat →
     _sanitize_input text = text).
Proof.
  rewrite sanitize_input_pipeline.
  assert (Hplain : Spec.markdown_free text = true →
                   Spec.strip_markdown text = text).
  { intros (Hi & Hb & Hc & Hs & Hh & Ht)%markdown_free_spec.
    unfold Spec.strip_markdown.
    by rewrite strip_images_id, strip_emphasis_id, strip_links_id,
      strip_headings_id, strip_backticks_id. }
  split; [| split].
  - pose proof (take_length_le MAX_INPUT_LENGTH (Spec.strip_markdown text)).
    pose proof (strip_markdown_length text). lia.
  - intros Hfree. by rewrite Hplain.
  - intros Hfree Hlen. rewrite Hplain by done. by apply take_all.
Qed.

(** X16 — The size of the user prompt.  The prompt is a fixed text of 124
    characters around the file path, as it is, and the sanitized title,
    description and patch: it is never longer than the path plus
    124 + 3 * 500 characters. *)
Theorem build_user_prompt_length
    (file_path patch pr_title pr_description : string) :
  String.length (_build_user_prompt file_path patch pr_title pr_description)
  = (user_prompt_frame + String.length file_path
     + String.length (_sanitize_input pr_title)
     + String.length (_sanitize_input pr_description)
     + String.length (_sanitize_input patch))%nat
  ∧ (String.length (_build_user_prompt file_path patch pr_title pr_description)
     ≤ String.length file_path + user_prompt_frame + 3 * MAX_INPUT_LENGTH)%nat
  ∧ user_prompt_frame = 124%nat.
Proof.
  assert (Hlen : String.length
                   (_build_user_prompt file_path patch pr_title pr_description)
                 = (user_prompt_frame + String.length file_path
                    + String.length (_sanitize_input pr_title)
                    + String.length (_sanitize_input pr_description)
                    + String.length (_sanitize_input patch))%nat).
  { unfold _build_user_prompt. cbn zeta. rewrite !length_append.
    unfold user_prompt_frame, nl. cbn [String.length]. lia. }
  split; [exact Hlen |]. split; [| done]. rewrite Hlen.
  pose proof (sanitize_input_pipeline pr_title) as ->.
  pose proof (sanitize_input_pipeline pr_description) as ->.
  pose proof (sanitize_input_pipeline patch) as ->.
  pose proof (take_length MAX_INPUT_LENGTH (Spec.strip_markdown pr_title)).
  pose proof (take_length MAX_INPUT_LENGTH (Spec.strip_markdown pr_description)).
  pose proof (take_length MAX_INPUT_LENGTH (Spec.strip_markdown patch)).
  lia.
Qed.

End SanitizeMore.

(** ** The GitHub client: chunks *)

Section ChunkMore.
Import github_client.

Lemma slice_chunk {A} (l : list A) i size :
  slice l i (i + size) = take (Z.to_nat size) (drop (Z.to_nat i) l).
Proof. unfold slice. by replace (i + size - i) with size by lia. Qed.

Lemma range_from_bounds fuel i stop step j :
  0 < step → j ∈ range_from fuel i stop step → i ≤ j < stop.
Proof.
  intros Hs. revert i. induction fuel as [|fuel IH]; intros i; cbn [range_from].
  { by intros ?%elem_of_nil. }
  destruct (Z.ltb_spec i stop); [| by intros ?%elem_of_nil].
  intros [->|Hin]%elem_of_cons; [lia |].
  apply IH in Hin. lia.
Qed.

Lemma range_from_nonempty fuel i stop step :
  range_from fuel i stop step ≠ [] → i < stop.
Proof.
  destruct fuel; cbn [range_from]; [done |].
  by destruct (Z.ltb_spec i stop).
Qed.

(** the chunks put together give the list back *)
Lemma range_from_concat {A} (l : list A) size fuel i :
  0 < size → 0 ≤ i → Z.of_nat (length l) - i ≤ Z.of_nat fuel →
  concat (map (λ j, slice l j (j + size))
              (range_from fuel i (Z.of_nat (length l)) size))
  = drop (Z.to_nat i) l.
Proof.
  intros Hs. revert i. induction fuel as [|fuel IH]; intros i Hi Hf;
    cbn [range_from].
  { simpl. symmetry. apply drop_ge. lia. }
  destruct (Z.ltb_spec i (Z.of_nat (length l))).
  - cbn [map concat]. rewrite IH by lia. rewrite slice_chunk.
    replace (Z.to_nat (i + size)) with (Z.to_nat i + Z.to_nat size)%nat by lia.
    rewrite <- drop_drop. apply take_drop.
  - simpl. symmetry. apply drop_ge. lia.
Qed.

(** how many chunks there are *)
Lemma range_from_length fuel i stop step :
  0 < step → stop - i ≤ Z.of_nat fuel →
  Z.of_nat (length (range_from fuel i stop step))
  = Z.max 0 ((stop - i + step - 1) / step).
Proof.
  intros Hs. revert i. induction fuel as [|fuel IH]; intros i Hf;
    cbn [range_from].
  { cbn [length].
    assert ((stop - i + step - 1) / step < 1)
      by (apply Z.div_lt_upper_bound; lia). lia. }
  destruct (Z.ltb_spec i stop).
  - cbn [length]. rewrite Nat2Z.inj_succ, IH by lia.
    replace (stop - i + step - 1) with (stop - (i + step) + step - 1 + 1 * step)
      by lia.
    rewrite Z.div_add by lia.
    assert (0 ≤ (stop - (i + step) + step - 1) / step)
      by (apply Z.div_pos; lia). lia.
  - cbn [length].
    assert ((stop - i + step - 1) / step < 1)
      by (apply Z.div_lt_upper_bound; lia). lia.
Qed.

(** every chunk but the last is full *)
Lemma range_from_full {A} (l : list A) size fuel i k c :
  0 < size → 0 ≤ i →
  let chunks := map (λ j, slice l j (j + size))
                    (range_from fuel i (Z.of_nat (length l)) size) in
  chunks !! k = Some c → (S k < length chunks)%nat →
  Z.of_nat (length c) = size.
Proof.
  intros Hs. cbn zeta. revert i k.
  induction fuel as [|fuel IH]; intros i k Hi; cbn [range_from]; [done |].
  destruct (Z.ltb_spec i (Z.of_nat (length l))); [| done].
  cbn [map]. destruct k as [|k]; cbn [lookup list_lookup length].
  - intros [= <-] Hlen.
    assert (range_from fuel (i + size) (Z.of_nat (length l)) size ≠ []) as Hne.
    { intros Heq. rewrite Heq in Hlen. simpl in Hlen. lia. }
    apply range_from_nonempty in Hne.
    rewrite slice_chunk, length_take, length_drop. lia.
  - intros Hk Hlen. apply (IH (i + size) k); [lia | done | lia].
Qed.

(** X17 — [_chunk_comments]: for a positive chunk size the chunks, put
    together in order, are the comments; no chunk is empty or longer than
    the chunk size, every chunk but the last is full, and there are
    ceil(n / chunk_size) of them.  A chunk size of 0 raises [ValueError], and
    for a negative one the result is empty: the comments are dropped. *)
Theorem chunk_comments_partition {A} (comments : list A) (chunk_size : Z) :
  (0 < chunk_size →
   ∃ chunks,
     _chunk_comments comments chunk_size = inr chunks
     ∧ concat chunks = comments
     ∧ Forall (λ c, (0 < length c)%nat ∧ Z.of_nat (length c) ≤ chunk_size)
              chunks
     ∧ (∀ k c, chunks !! k = Some c → (S k < length chunks)%nat →
               Z.of_nat (length c) = chunk_size)
     ∧ Z.of_nat (length chunks)
       = (Z.of_nat (length comments) + chunk_size - 1) / chunk_size)
  ∧ (chunk_size = 0 → _chunk_comments comments chunk_size = inl ValueError)
  ∧ (chunk_size < 0 → _chunk_comments comments chunk_size = inr []).
Proof.
  split; [| split].
  - intros Hs. unfold _chunk_comments, range_0.
    destruct (Z.eqb_spec chunk_size 0) as [|_]; [lia |].
    destruct (Z.ltb_spec chunk_size 0) as [|_]; [lia |].
    eexists. split; [done |]. split; [| split; [| split]].
    + rewrite range_from_concat by lia. done.
    + apply Forall_forall. intros c (j & -> & Hj)%list_elem_of_fmap.
      apply range_from_bounds in Hj; [| done].
      rewrite slice_chunk, length_take, length_drop. lia.
    + intros k c Hk Hlen.
      by apply (range_from_full comments chunk_size
                  (Z.to_nat (Z.of_nat (length comments))) 0 k c).
    + rewrite length_map, range_from_length by lia.
      rewrite Z.sub_0_r.
      assert (0 ≤ (Z.of_nat (length comments) + chunk_size - 1) / chunk_size)
        by (apply Z.div_pos; lia). lia.
  - intros ->. done.
  - intros Hs. unfold _chunk_comments, range_0.
    destruct (Z.eqb_spec chunk_size 0) as [|_]; [lia |].
    by destruct (Z.ltb_spec chunk_size 0) as [_|]; [| lia].
Qed.

End ChunkMore.

(** ** The GitHub client: posting a review *)

Section GitHubMore.
Import Api github_client Posts.
Variable api : GitHubApi.

Lemma batches_app t1 t2 : batches (t1 ++ t2) = batches t1 ++ batches t2.
Proof. unfold batches. apply omap_app. Qed.

Lemma individuals_app t1 t2 :
  individuals (t1 ++ t2) = individuals t1 ++ individuals t2.
Proof. unfold individuals. apply omap_app. Qed.

Lemma batches_comments commit cs : batches (map (comment_of commit) cs) = [].
Proof. by induction cs. Qed.

Lemma individuals_comments commit cs :
  individuals (map (comment_of commit) cs) = map plain cs.
Proof.
  induction cs as [|c cs IH]; [done |].
  cbn [map]. rewrite <- IH. done.
Qed.

Lemma plain_github_comment comments :
  map plain (map github_comment comments) = comments.
Proof.
  induction comments as [|[p b l] comments IH]; [done |].
  cbn [map]. by rewrite IH.
Qed.

Lemma review_call_comments summary commit cs :
  Forall (review_call summary) (map (comment_of commit) cs).
Proof. induction cs; constructor; done. Qed.

(** one comment of the fallback: a [GithubException] is swallowed, any
    other exception is raised *)
Lemma post_individual_step_events commit c t :
  post_individual_step api commit c t
  = (match create_review_comment api (length t) with
     | Some e => if is_GithubException e then inr tt else inl e
     | None => inr tt
     end, t ++ [comment_of commit c]).
Proof.
  unfold post_individual_step, try_except, call, answer.
  destruct (create_review_comment api (length t)) as [[]|]; done.
Qed.

(** the fallback sends the comments in order until an exception that is no
    [GithubException] stops it *)
Lemma post_individual_events cs commit t :
  ∃ k r,
    _post_individual_comments api cs commit t
    = (r, t ++ map (comment_of commit) (take k cs))
    ∧ (r = inr tt → take k cs = cs)
    ∧ (∀ e, r = inl e → is_GithubException e = false).
Proof.
  unfold _post_individual_comments. revert t.
  induction cs as [|c cs IH]; intros t.
  { exists 0%nat, (inr tt). cbn. by rewrite app_nil_r. }
  cbn [for_each]. unfold bind at 1. rewrite post_individual_step_events.
  destruct (create_review_comment api (length t)) as [e|] eqn:Hc.
  - destruct (is_GithubException e) eqn:He.
    + destruct (IH (t ++ [comment_of commit c])) as (k & r & -> & Hall & Hexn).
      exists (S k), r. cbn [take map]. rewrite <- app_assoc.
      split; [done |]. split; [| done].
      intros Hr. by rewrite (Hall Hr).
    + exists 1%nat, (inl e). cbn [take map]. rewrite take_0.
      split; [done |]. split; [done |]. by intros ? [= <-].
  - destruct (IH (t ++ [comment_of commit c])) as (k & r & -> & Hall & Hexn).
    exists (S k), r. cbn [take map]. rewrite <- app_assoc.
    split; [done |]. split; [| done].
    intros Hr. by rewrite (Hall Hr).
Qed.

(** when single comments fail softly the fallback sends them all *)
Lemma post_individual_all cs commit t :
  comments_fail_softly api →
  _post_individual_comments api cs commit t
  = (inr tt, t ++ map (comment_of commit) cs).
Proof.
  intros Hsoft. unfold _post_individual_comments. revert t.
  induction cs as [|c cs IH]; intros t.
  { cbn. by rewrite app_nil_r. }
  cbn [for_each]. unfold bind at 1. rewrite post_individual_step_events.
  destruct (create_review_comment api (length t)) as [e|] eqn:Hc.
  - rewrite (Hsoft _ _ Hc). rewrite IH. cbn [map]. by rewrite <- app_assoc.
  - rewrite IH. cbn [map]. by rewrite <- app_assoc.
Qed.

(** one chunk: the review, and after a 422 a prefix of its comments *)
Lemma post_chunk_events commit summary chunk t :
  ∃ k r,
    post_chunk api commit summary chunk t
    = (r, t ++ review_of commit summary chunk
               :: map (comment_of commit) (take k chunk))
    ∧ (∀ status message, r = inl (GithubException status message) →
                         status ≠ 422).
Proof.
  unfold post_chunk, try_except, call, answer.
  destruct (create_review api (length t)) as [e|].
  - destruct e as [status message| | |message].
    + destruct (Z.eqb_spec status 422) as [->|Hne].
      * destruct (post_individual_events chunk commit
                    (t ++ [CreateReview commit chunk "COMMENT" summary]))
          as (k & r & -> & _ & Hexn).
        exists k, r. rewrite <- app_assoc. split; [done |].
        intros status' message' ->. by specialize (Hexn _ eq_refl).
      * exists 0%nat, (inl (GithubException status message)).
        rewrite take_0. split; [done |]. by intros ? ? [= <- _].
    + exists 0%nat, (inl IndexError). rewrite take_0. by split.
    + exists 0%nat, (inl ValueError). rewrite take_0. by split.
    + exists 0%nat, (inl (OtherException message)). rewrite take_0. by split.
  - exists 0%nat, (inr tt). rewrite take_0. by split.
Qed.

(** the loop over the chunks *)
Lemma post_chunks_events commit summary chunks t :
  ∃ new r,
    for_each chunks (post_chunk api commit summary) t = (r, t ++ new)
    ∧ batches new `prefix_of` chunks
    ∧ (r = inr tt → batches new = chunks)
    ∧ individuals new `sublist_of` map plain (concat chunks)
    ∧ (∀ status message, r = inl (GithubException status message) →
                         status ≠ 422)
    ∧ Forall (review_call summary) new.
Proof.
  revert t. induction chunks as [|chunk chunks IH]; intros t.
  { exists [], (inr tt). cbn. rewrite app_nil_r.
    repeat split; done. }
  cbn [for_each]. unfold bind at 1.
  destruct (post_chunk_events commit summary chunk t) as (k & r1 & -> & H422).
  set (new1 := review_of commit summary chunk
               :: map (comment_of commit) (take k chunk)).
  assert (batches new1 = [chunk]) as Hb1.
  { unfold new1. change (batches (review_of commit summary chunk
                                  :: map (comment_of commit) (take k chunk)))
      with (chunk :: batches (map (comment_of commit) (take k chunk))).
    by rewrite batches_comments. }
  assert (individuals new1 = map plain (take k chunk)) as Hi1.
  { unfold new1. change (individuals (review_of commit summary chunk
                                      :: map (comment_of commit) (take k chunk)))
      with (individuals (map (comment_of commit) (take k chunk))).
    by rewrite individuals_comments. }
  assert (Forall (review_call summary) new1) as Hc1.
  { unfold new1. constructor; [done |]. apply review_call_comments. }
  assert (map plain (take k chunk) `sublist_of` map plain chunk) as Hs1.
  { apply (fmap_sublist plain), sublist_take. }
  destruct r1 as [e|[]].
  - exists new1, (inl e). split; [done |]. rewrite Hb1, Hi1.
    split; [by exists chunks |]. split; [done |].
    split; [| split; [done | done]].
    cbn [concat]. rewrite map_app. by apply sublist_inserts_r.
  - destruct (IH (t ++ new1)) as (new2 & r & -> & Hpre & Hall & Hsub & Hexn & Hc2).
    exists (new1 ++ new2), r. rewrite <- app_assoc. split; [done |].
    rewrite batches_app, individuals_app, Hb1, Hi1.
    split; [by apply (prefix_app [chunk]) |].
    split; [intros Hr; by rewrite (Hall Hr) |].
    split; [| split; [done | by apply Forall_app]].
    cbn [concat]. rewrite map_app. by apply sublist_app.
Qed.

(** the chunks of at most 30 that the client makes *)
Lemma github_chunks (comments : list Effects.PlatformComment) :
  ∃ chunks,
    _chunk_comments (map github_comment comments) REVIEW_COMMENT_CHUNK_SIZE
    = inr chunks
    ∧ concat chunks = map github_comment comments
    ∧ Forall (λ c, (0 < length c ≤ 30)%nat) chunks.
Proof.
  unfold _chunk_comments, range_0, REVIEW_COMMENT_CHUNK_SIZE.
  cbn [Z.eqb Z.ltb Z.compare].
  eexists. split; [done |]. split.
  - by rewrite range_from_concat by lia.
  - apply Forall_forall. intros c (j & -> & Hj)%list_elem_of_fmap.
    apply range_from_bounds in Hj; [| done].
    rewrite slice_chunk, length_take, length_drop. lia.
Qed.

(** X18 — GitHub [post_review_comments], whatever the API answers: the
    chunks sent as reviews are the chunks of the comments from the first
    on, all of them when the call returns; the comments sent one by one are
    among the comments, in their order; with no comment no call is made at
    all, so the summary is not posted; every review carries the summary;
    and a [GithubException] with status 422 never escapes unless the
    fetching of the commits raised it. *)
Theorem github_post_review_comments_calls
    (comments : list Effects.PlatformComment) (summary : string)
    (t : list event) :
  ∃ new r chunks,
    post_review_comments api comments summary t = (r, t ++ new)
    ∧ _chunk_comments (map github_comment comments) REVIEW_COMMENT_CHUNK_SIZE
      = inr chunks
    ∧ batches new `prefix_of` chunks
    ∧ (r = inr tt → batches new = chunks)
    ∧ individuals new `sublist_of` comments
    ∧ (comments = [] → new = [] ∧ r = inr tt)
    ∧ Forall (review_call summary) new
    ∧ (∀ message, r = inl (GithubException 422 message) →
                  commits api = inl (GithubException 422 message)).
Proof.
  destruct (github_chunks comments) as (chunks & Hchunks & Hconcat & _).
  destruct comments as [|c0 comments'] eqn:Hcs.
  { exists [], (inr tt), chunks. cbn [post_review_comments ret].
    rewrite app_nil_r. split; [done |]. split; [done |].
    cbn in Hchunks. injection Hchunks as <-.
    repeat split; try done. }
  rewrite <- Hcs in *.
  assert (post_review_comments api comments summary t
          = bind (call GetCommits (λ _, commits api)) (λ commit_list,
            bind (lift (match last commit_list with
                        | Some c => inr c
                        | None => inl IndexError
                        end)) (λ last_commit,
            bind (lift (_chunk_comments (map github_comment comments)
                          REVIEW_COMMENT_CHUNK_SIZE))
              (λ chunks, for_each chunks (post_chunk api last_commit summary))))
              t) as ->.
  { by rewrite Hcs. }
  unfold bind at 1. unfold call.
  destruct (commits api) as [e|commit_list] eqn:Hcommits.
  { exists [GetCommits], (inl e), chunks. split; [done |]. split; [done |].
    split; [apply prefix_nil |]. split; [done |].
    split; [apply sublist_nil_l |]. split; [by rewrite Hcs |].
    split; [by repeat constructor |]. by intros ? [= ->]. }
  unfold bind at 1. unfold lift at 1.
  destruct (last commit_list) as [commit|].
  2:{ exists [GetCommits], (inl IndexError), chunks.
      split; [done |]. split; [done |].
      split; [apply prefix_nil |]. split; [done |].
      split; [apply sublist_nil_l |]. split; [by rewrite Hcs |].
      split; [by repeat constructor | done]. }
  unfold bind at 1. unfold lift at 1. rewrite Hchunks.
  destruct (post_chunks_events commit summary chunks (t ++ [GetCommits]))
    as (new & r & -> & Hpre & Hall & Hsub & H422 & Hcalls).
  exists (GetCommits :: new), r, chunks.
  rewrite <- app_assoc. split; [done |]. split; [done |].
  split; [done |]. split; [done |].
  split; [| split; [by rewrite Hcs | split]].
  - change (individuals (GetCommits :: new)) with (individuals new).
    by rewrite Hconcat, plain_github_comment in Hsub.
  - by constructor.
  - intros message ->. by specialize (H422 _ _ eq_refl).
Qed.

(** when every review is accepted, the loop sends one review for a chunk *)
Lemma post_chunks_accepted commit summary chunks t :
  (∀ n, create_review api n = None) →
  for_each chunks (post_chunk api commit summary) t
  = (inr tt, t ++ map (review_of commit summary) chunks).
Proof.
  intros Hok. revert t. induction chunks as [|chunk chunks IH]; intros t.
  { cbn. by rewrite app_nil_r. }
  cbn [for_each]. unfold bind at 1.
  unfold post_chunk, try_except, call, answer. rewrite Hok.
  rewrite IH. cbn [map]. by rewrite <- app_assoc.
Qed.

(** when every review is answered with 422 and single comments fail softly,
    every chunk is sent as a review and then comment by comment *)
Lemma post_chunks_rejected commit summary chunks t :
  rejects_every_review api → comments_fail_softly api →
  for_each chunks (post_chunk api commit summary) t
  = (inr tt,
     t ++ flat_map (λ chunk, review_of commit summary chunk
                             :: map (comment_of commit) chunk) chunks).
Proof.
  intros Hrej Hsoft. revert t. induction chunks as [|chunk chunks IH]; intros t.
  { cbn. by rewrite app_nil_r. }
  cbn [for_each]. unfold bind at 1.
  unfold post_chunk, try_except, call, answer.
  destruct (Hrej (length t)) as [message ->].
  cbn [Z.eqb Pos.eqb]. rewrite post_individual_all by done.
  rewrite IH. cbn [flat_map]. by rewrite <- !app_assoc.
Qed.

(** X19 — GitHub [post_review_comments] when the API accepts every call:
    one review for each chunk of at most 30 comments, in order, each with
    the summary as its body and on the last commit, and nothing else after
    the commits are fetched; with no comment, no call at all. *)
Theorem github_post_review_comments_accepted
    (comments : list Effects.PlatformComment) (summary : string)
    (t : list event) (commit_list : list string) (commit : string) :
  commits api = inr commit_list →
  last commit_list = Some commit →
  (∀ n, create_review api n = None) →
  ∃ chunks,
    concat chunks = map github_comment comments
    ∧ Forall (λ c, (0 < length c ≤ 30)%nat) chunks
    ∧ post_review_comments api comments summary t
      = (inr tt,
         t ++ match comments with
              | [] => []
              | _ => GetCommits :: map (review_of commit summary) chunks
              end).
Proof.
  intros Hcommits Hlast Hok.
  destruct (github_chunks comments) as (chunks & Hchunks & Hconcat & Hlen).
  exists chunks. split; [done |]. split; [done |].
  destruct comments as [|c0 comments'] eqn:Hcs.
  { cbn [post_review_comments ret]. by rewrite app_nil_r. }
  rewrite <- Hcs in *.
  assert (post_review_comments api comments summary t
          = bind (call GetCommits (λ _, commits api)) (λ commit_list,
            bind (lift (match last commit_list with
                        | Some c => inr c
                        | None => inl IndexError
                        end)) (λ last_commit,
            bind (lift (_chunk_comments (map github_comment comments)
                          REVIEW_COMMENT_CHUNK_SIZE))
              (λ chunks, for_each chunks (post_chunk api last_commit summary))))
              t) as ->.
  { by rewrite Hcs. }
  unfold bind at 1. unfold call. rewrite Hcommits.
  unfold bind at 1. unfold lift at 1. rewrite Hlast.
  unfold bind at 1. unfold lift at 1. rewrite Hchunks.
  rewrite post_chunks_accepted by done. by rewrite <- app_assoc.
Qed.

Lemma individuals_flat_map commit summary chunks :
  individuals (flat_map (λ chunk, review_of commit summary chunk
                                  :: map (comment_of commit) chunk) chunks)
  = map plain (concat chunks).
Proof.
  induction chunks as [|chunk chunks IH]; [done |].
  cbn [flat_map concat]. rewrite individuals_app, map_app, IH. f_equal.
  change (individuals (review_of commit summary chunk
                       :: map (comment_of commit) chunk))
    with (individuals (map (comment_of commit) chunk)).
  apply individuals_comments.
Qed.

(** X20 — GitHub [post_review_comments] when every review is answered with
    status 422 and single comments fail with a [GithubException] only: each
    chunk is tried as a review and then sent comment by comment, so every
    comment is sent on its own, in order, a rejected one is skipped without
    an error, and the call returns. *)
Theorem github_post_review_comments_fallback
    (comments : list Effects.PlatformComment) (summary : string)
    (t : list event) (commit_list : list string) (commit : string) :
  commits api = inr commit_list →
  last commit_list = Some commit →
  rejects_every_review api →
  comments_fail_softly api →
  ∃ chunks new,
    concat chunks = map github_comment comments
    ∧ new = match comments with
            | [] => []
            | _ => GetCommits
                   :: flat_map (λ chunk, review_of commit summary chunk
                                         :: map (comment_of commit) chunk)
                               chunks
            end
    ∧ post_review_comments api comments summary t = (inr tt, t ++ new)
    ∧ individuals new = comments.
Proof.
  intros Hcommits Hlast Hrej Hsoft.
  destruct (github_chunks comments) as (chunks & Hchunks & Hconcat & Hlen).
  exists chunks. eexists. split; [done |]. split; [done |].
  destruct comments as [|c0 comments'] eqn:Hcs.
  { cbn [post_review_comments ret]. by rewrite app_nil_r. }
  rewrite <- Hcs in *.
  assert (post_review_comments api comments summary t
          = bind (call GetCommits (λ _, commits api)) (λ commit_list,
            bind (lift (match last commit_list with
                        | Some c => inr c
                        | None => inl IndexError
                        end)) (λ last_commit,
            bind (lift (_chunk_comments (map github_comment comments)
                          REVIEW_COMMENT_CHUNK_SIZE))
              (λ chunks, for_each chunks (post_chunk api last_commit summary))))
              t) as ->.
  { by rewrite Hcs. }
  unfold bind at 1. unfold call. rewrite Hcommits.
  unfold bind at 1. unfold lift at 1. rewrite Hlast.
  unfold bind at 1. unfold lift at 1. rewrite Hchunks.
  rewrite post_chunks_rejected by done. rewrite <- app_assoc.
  split; [done |].
  change (individuals (GetCommits :: ?l)) with (individuals l).
  by rewrite individuals_flat_map, Hconcat, plain_github_comment.
Qed.

End GitHubMore.

Section GitHubScenarios.
Import Api github_client Posts.

Lemma github_post_review_comments_accepted_witness :
  ∃ chunks,
    concat chunks = map github_comment two_comments
    ∧ Forall (λ c, (0 < length c ≤ 30)%nat) chunks
    ∧ post_review_comments accepting_github two_comments "summary" []
      = (inr tt,
         [] ++ GetCommits :: map (review_of "deadbeef" "summary") chunks).
Proof.
  apply (github_post_review_comments_accepted accepting_github two_comments
           "summary" [] ["c0ffee"; "deadbeef"] "deadbeef").
  - reflexivity.
  - reflexivity.
  - intros n. reflexivity.
Defined.

Lemma github_post_review_comments_fallback_witness :
  ∃ chunks new,
    concat chunks = map github_comment two_comments
    ∧ new = GetCommits
            :: flat_map (λ chunk, review_of "deadbeef" "summary" chunk
                                  :: map (comment_of "deadbeef") chunk)
                        chunks
    ∧ post_review_comments rejecting_github two_comments "summary" []
      = (inr tt, [] ++ new)
    ∧ individuals new = two_comments.
Proof.
  apply (github_post_review_comments_fallback rejecting_github two_comments
           "summary" [] ["c0ffee"; "deadbeef"] "deadbeef").
  - reflexivity.
  - reflexivity.
  - intros n. exists "Unprocessable Entity". reflexivity.
  - intros n e. unfold rejecting_github. cbn [create_review_comment].
    destruct (n =? 3)%nat; [| discriminate].
    intros [= <-]. reflexivity.
Defined.

End GitHubScenarios.

(** ** The GitLab client *)

Section GitLabFiles.
Import gitlab_client Posts Diffs.
Import diff_parser PatchLines.

Lemma startswith_char a c rest :
  PyStr.startswith (String a EmptyString) (String c rest) = Ascii.eqb a c.
Proof.
  unfold PyStr.startswith. cbn [String.prefix].
  destruct (Ascii.ascii_dec a c) as [->|Hne].
  - rewrite Ascii.eqb_refl. by destruct rest.
  - symmetry. by apply Ascii.eqb_neq.
Qed.

Lemma counted_addition_plus line :
  counted_addition line = true →
  Spec.emits line = true ∧ (line_payload line).1.1.2 = true.
Proof.
  unfold counted_addition. intros [Hplus _]%andb_true_iff.
  destruct line as [|c rest]; [done |].
  rewrite startswith_char in Hplus. apply Ascii.eqb_eq in Hplus as <-.
  done.
Qed.

Lemma counted_addition_not_deletion line :
  counted_addition line = true → counted_deletion line = false.
Proof.
  unfold counted_addition, counted_deletion. intros [Hplus _]%andb_true_iff.
  destruct line as [|c rest]; [done |].
  rewrite startswith_char in Hplus. apply Ascii.eqb_eq in Hplus as <-.
  by rewrite startswith_char.
Qed.

(** the counting loop counts the two kinds of lines *)
Lemma count_fold lines additions deletions :
  fold_left count_step lines (additions, deletions)
  = (additions + Z.of_nat (length (List.filter counted_addition lines)),
     deletions + Z.of_nat (length (List.filter counted_deletion lines))).
Proof.
  revert additions deletions.
  induction lines as [|line lines IH]; intros additions deletions.
  { cbn. f_equal; lia. }
  cbn [fold_left List.filter]. unfold count_step at 2.
  fold (counted_addition line). fold (counted_deletion line).
  destruct (counted_addition line) eqn:Ha.
  - rewrite (counted_addition_not_deletion _ Ha), IH. cbn [length].
    f_equal; lia.
  - destruct (counted_deletion line); rewrite IH; cbn [length]; f_equal; lia.
Qed.

Lemma get_files_fold changes files :
  fold_left (λ files change, files ++ [file_of_change change]) changes files
  = files ++ map file_of_change changes.
Proof.
  revert files. induction changes as [|change changes IH]; intros files.
  { cbn. by rewrite app_nil_r. }
  cbn [fold_left map]. rewrite IH. by rewrite <- app_assoc.
Qed.

Lemma filter_length_le {A} (f g : A → bool) l :
  (∀ x, f x = true → g x = true) →
  (length (List.filter f l) ≤ length (List.filter g l))%nat.
Proof.
  intros Hfg. induction l as [|x l IH]; [done |].
  cbn [List.filter]. destruct (f x) eqn:Hf.
  - rewrite (Hfg _ Hf). cbn [length]. lia.
  - destruct (g x); cbn [length]; lia.
Qed.

Lemma filter_map_length {A B} (f : B → bool) (g : A → B) l :
  length (List.filter f (map g l)) = length (List.filter (λ x, f (g x)) l).
Proof.
  induction l as [|x l IH]; [done |].
  cbn [map List.filter]. destruct (f (g x)); cbn [length]; by rewrite IH.
Qed.

Lemma filter_filter_length {A} (f g : A → bool) l :
  length (List.filter f (List.filter g l))
  = length (List.filter (λ x, g x && f x) l).
Proof.
  induction l as [|x l IH]; [done |].
  cbn [List.filter]. destruct (g x); cbn [List.filter andb]; [| done].
  destruct (f x); cbn [length]; by rewrite IH.
Qed.

(** the parser finds every line that the GitLab client counts as an
    addition *)
Lemma counted_additions_parsed patch :
  patch ≠ EmptyString →
  (length (List.filter counted_addition (PyStr.split_newline patch))
   ≤ addition_lines patch)%nat.
Proof.
  intros Hne. unfold addition_lines. rewrite parse_patch_fold.
  pose proof (parse_fold_payload (PyStr.split_newline patch) 0) as Hpay.
  set (parsed := (fold_left parse_step (PyStr.split_newline patch) ([], 0)).1)
    in *.
  assert (length (List.filter is_addition parsed)
          = length (List.filter (λ p : string * bool * bool * bool, p.1.1.2)
                      (map DiffLine_payload parsed))) as ->.
  { by rewrite filter_map_length. }
  change (map DiffLine_payload parsed) with (DiffLine_payload <$> parsed).
  rewrite Hpay.
  change (line_payload <$> ?l) with (map line_payload l).
  rewrite filter_map_length, filter_filter_length.
  apply filter_length_le. intros line Hline.
  destruct (counted_addition_plus _ Hline) as [-> ->]. done.
Qed.

(** X21 — GitLab [get_files]: one file for each change, in order, with the
    new path as its name; the patch is missing exactly when the diff is
    empty or absent; the additions are the lines that start with + but not
    with +++, the deletions likewise with -; the parser finds at least as
    many addition lines in the diff as the client counts; so a file that the
    filter keeps has an addition line to comment on. *)
Theorem gitlab_get_files_counts (changes : list Change) :
  get_files changes = map file_of_change changes
  ∧ ∀ change,
      let f := file_of_change change in
      filename f = new_path change
      ∧ (patch f = None ↔ diff_text change = EmptyString)
      ∧ (∀ p, patch f = Some p → p = diff_text change ∧ p ≠ EmptyString)
      ∧ additions f
        = Z.of_nat (length (List.filter counted_addition
                              (PyStr.split_newline (diff_text change))))
      ∧ deletions f
        = Z.of_nat (length (List.filter counted_deletion
                              (PyStr.split_newline (diff_text change))))
      ∧ 0 ≤ additions f ≤ Z.of_nat (addition_lines (diff_text change))
      ∧ (keeps f = true →
         ∃ d, d ∈ parse_patch (review.patch_text f)
              ∧ is_addition d = true
              ∧ line_number d ∈ get_valid_comment_lines (review.patch_text f)).
Proof.
  split.
  { unfold get_files. by rewrite get_files_fold. }
  intros change. cbn zeta. unfold file_of_change.
  fold (diff_text change). rewrite count_fold.
  cbn [filename patch additions deletions]. rewrite !Z.add_0_l.
  assert (Z.of_nat (length (List.filter counted_addition
                              (PyStr.split_newline (diff_text change))))
          ≤ Z.of_nat (addition_lines (diff_text change))) as Hle.
  { destruct (diff_text change) as [|c rest] eqn:Hd; [done |].
    apply inj_le, counted_additions_parsed. done. }
  split; [done |]. split; [| split; [| split; [done | split; [done |]]]].
  - destruct (diff_text change); [done |]. split; done.
  - intros p. destruct (diff_text change); [done |]. by intros [= <-].
  - split; [split; [lia | done] |].
    unfold keeps, review.patch_text. cbn [filename patch additions].
    destruct (diff_text change) as [|c rest] eqn:Hd; [done |].
    cbn [PyStr.nonempty default].
    intros Hk. apply andb_true_iff in Hk as [Hk _].
    apply andb_true_iff in Hk as [Hadd _].
    apply negb_true_iff, Z.eqb_neq in Hadd.
    unfold addition_lines in Hle.
    destruct (List.filter is_addition (parse_patch (String c rest)))
      as [|d ds] eqn:Hf.
    { cbn [length] in Hle. lia. }
    assert (In d (List.filter is_addition (parse_patch (String c rest))))
      as Hin by (rewrite Hf; by left).
    apply List.filter_In in Hin as [Hin Hd_add].
    exists d. apply list_elem_of_In in Hin.
    split; [done |]. split; [done |].
    unfold get_valid_comment_lines. apply elem_of_list_to_set.
    by apply list_elem_of_fmap_2.
Qed.

End GitLabFiles.

Section GitLabPosts.
Import Api gitlab_client Posts.
Variable api : GitLabApi.

(** one comment: a [GitlabCreateError] is swallowed, any other exception
    is raised *)
Lemma post_discussion_events refs c t :
  post_discussion api refs c t
  = (match discussions_create api (length t) with
     | Some e => if is_GitlabCreateError e then inr tt else inl e
     | None => inr tt
     end, t ++ [discussion_of refs c]).
Proof.
  unfold post_discussion, try_except, call, answer.
  destruct (discussions_create api (length t)) as [[]|]; done.
Qed.

Lemma post_discussions_all refs comments t :
  discussions_fail_softly api →
  for_each comments (post_discussion api refs) t
  = (inr tt, t ++ map (discussion_of refs) comments).
Proof.
  intros Hsoft. revert t. induction comments as [|c comments IH]; intros t.
  { cbn. by rewrite app_nil_r. }
  cbn [for_each]. unfold bind at 1. rewrite post_discussion_events.
  destruct (discussions_create api (length t)) as [e|] eqn:Hc.
  - rewrite (Hsoft _ _ Hc), IH. cbn [map]. by rewrite <- app_assoc.
  - rewrite IH. cbn [map]. by rewrite <- app_assoc.
Qed.

Lemma post_discussions_abort refs comments t k e :
  (k < length comments)%nat →
  discussions_create api (length t + k) = Some e →
  is_GitlabCreateError e = false →
  (∀ j e', (j < k)%nat → discussions_create api (length t + j) = Some e' →
           is_GitlabCreateError e' = true) →
  for_each comments (post_discussion api refs) t
  = (inl e, t ++ map (discussion_of refs) (take (S k) comments)).
Proof.
  revert t k. induction comments as [|c comments IH]; intros t k Hk He Hhard Hsoft.
  { cbn [length] in Hk. lia. }
  cbn [for_each]. unfold bind at 1. rewrite post_discussion_events.
  destruct k as [|k].
  - rewrite Nat.add_0_r in He. rewrite He, Hhard. cbn [take map]. by rewrite take_0.
  - assert (match discussions_create api (length t) with
            | Some e0 => if is_GitlabCreateError e0 then inr tt else inl e0
            | None => inr tt
            end = inr tt) as ->.
    { destruct (discussions_create api (length t)) as [e0|] eqn:H0; [| done].
      rewrite (Hsoft 0%nat e0); [done | lia |]. by rewrite Nat.add_0_r. }
    rewrite (IH (t ++ [discussion_of refs c]) k).
    + cbn [take map]. by rewrite <- app_assoc.
    + cbn [length] in Hk. lia.
    + rewrite length_app. cbn [length].
      by replace (length t + 1 + k)%nat with (length t + S k)%nat by lia.
    + done.
    + intros j e' Hj. rewrite length_app. cbn [length].
      replace (length t + 1 + j)%nat with (length t + S j)%nat by lia.
      apply Hsoft. lia.
Qed.

(** X22 — GitLab [post_review_comments] when discussions fail with a
    [GitlabCreateError] only: one discussion is opened for each comment, in
    order, at its path and line on the head commit, a refused one is skipped,
    and then the summary is posted as a note, once and last, also when there
    is no comment; the call ends as the posting of the note ends. *)
Theorem gitlab_post_review_comments_summary_last
    (comments : list Effects.PlatformComment) (summary : string)
    (t : list event) :
  discussions_fail_softly api →
  post_review_comments api comments summary t
  = (answer (notes_create api (length t + length comments)),
     t ++ map (discussion_of (diff_refs api)) comments ++ [CreateNote summary]).
Proof.
  intros Hsoft. unfold post_review_comments. unfold bind.
  rewrite post_discussions_all by done. unfold call.
  by rewrite length_app, length_map, <- app_assoc.
Qed.

(** X23 — GitLab [post_review_comments] when a discussion raises an
    exception that is no [GitlabCreateError]: the exception is raised, the
    later comments are not sent, and the summary is not posted. *)
Theorem gitlab_post_review_comments_aborts
    (comments : list Effects.PlatformComment) (summary : string)
    (t : list event) (k : nat) (e : exn) :
  (k < length comments)%nat →
  discussions_create api (length t + k) = Some e →
  is_GitlabCreateError e = false →
  (∀ j e', (j < k)%nat → discussions_create api (length t + j) = Some e' →
           is_GitlabCreateError e' = true) →
  ∃ new,
    post_review_comments api comments summary t = (inl e, t ++ new)
    ∧ new = map (discussion_of (diff_refs api)) (take (S k) comments)
    ∧ ∀ body, CreateNote body ∉ new.
Proof.
  intros Hk He Hhard Hsoft. eexists. split; [| split; [done |]].
  - unfold post_review_comments. unfold bind.
    by rewrite (post_discussions_abort _ _ _ k e).
  - intros body (c & Hc & _)%list_elem_of_fmap. discriminate.
Qed.

End GitLabPosts.

Section GitLabScenarios.
Import Api gitlab_client Posts.

Lemma gitlab_post_review_comments_summary_last_witness :
  post_review_comments refusing_gitlab two_comments "summary" []
  = (answer (notes_create refusing_gitlab (length (@nil event) + length two_comments)),
     [] ++ map (discussion_of (diff_refs refusing_gitlab)) two_comments
        ++ [CreateNote "summary"]).
Proof.
  apply (gitlab_post_review_comments_summary_last refusing_gitlab two_comments
           "summary" []).
  intros n e. unfold refusing_gitlab. cbn [discussions_create].
  destruct (n =? 0)%nat; [| discriminate].
  intros [= <-]. reflexivity.
Defined.

Lemma gitlab_post_review_comments_aborts_witness :
  ∃ new,
    post_review_comments broken_gitlab two_comments "summary" []
    = (inl (OtherException "connection reset"), [] ++ new)
    ∧ new = map (discussion_of (diff_refs broken_gitlab)) (take 2 two_comments)
    ∧ ∀ body, CreateNote body ∉ new.
Proof.
  apply (gitlab_post_review_comments_aborts broken_gitlab two_comments
           "summary" [] 1 (OtherException "connection reset")).
  - cbn. lia.
  - reflexivity.
  - reflexivity.
  - intros j e' Hj. assert (j = 0%nat) as -> by lia. discriminate.
Defined.

End GitLabScenarios.
